(** * Advanced_Dashboard: the analysis pipeline and its stores, embedded in Rocq

    The development follows the Python sources module by module:
    - [Py]        : the fragment of the Python runtime the sources rely on
                    (exceptions, truthiness, [int()], [float()], [str] methods);
    - [PyTime]    : naive [datetime] values, [isoformat] and [fromisoformat];
    - [AlertStore]: [alerts/store.py];
    - [AuditStore]: [audit/store.py];
    - [AlertEngine]: [_fingerprint] of [services/alerts/engine.py];
    - [Anomaly], [Forecast], [Recommend], [Risk], [Features]: the engines.

    Finite floats are represented by exact rationals ([Q]); the feature
    extractor, whose behaviour depends on them, also sees the two infinities
    and NaN ([pyfloat]). *)

From Stdlib Require Import ZArith QArith Qround Lqa Lia String Ascii List.
From Stdlib Require Import DecimalString DecimalNat.
From stdpp Require Import gmap strings list sorting.

Local Open Scope Z_scope.

(** ** The Python runtime fragment *)

Module Py.

Inductive exn : Type :=
| KeyError | ValueError | TypeError | OverflowError | AttributeError.

Inductive result (A : Type) : Type :=
| Ok (a : A)
| Raise (e : exn).
Arguments Ok {A} a.
Arguments Raise {A} e.

(** Sequencing: an exception aborts the rest of the block. *)
#[global] Instance result_ret : MRet result := fun A a => Ok a.
#[global] Instance result_bind : MBind result := fun A B k r =>
  match r with
  | Ok a => k a
  | Raise e => Raise e
  end.

Definition returns {A} (r : result A) : Prop :=
  match r with Ok _ => True | Raise _ => False end.

(** [try: r except ValueError: d] *)
Definition except_ValueError {A} (r : result A) (d : A) : result A :=
  match r with
  | Raise ValueError => Ok d
  | _ => r
  end.

(** Python floats: the finite ones as exact rationals. *)
Inductive pyfloat : Type :=
| Fin (q : Q)
| PosInf
| NegInf
| NaN.

(** The values a [Dict[str, Any]] holds. *)
#[local] Unset Elimination Schemes.
Inductive pyval : Type :=
| PNone
| PBool (b : bool)
| PInt (n : Z)
| PFloat (f : pyfloat)
| PStr (s : string)
| PDatetime (t : Z)
| PList (l : list pyval)
| PDict (d : list (string * pyval)).
#[local] Set Elimination Schemes.

(** [d.get(k)] on an insertion-ordered dictionary. *)
Fixpoint dict_get {V} (d : list (string * V)) (k : string) : option V :=
  match d with
  | [] => None
  | (k', v) :: d' => if String.eqb k' k then Some v else dict_get d' k
  end.

(** Truthiness, as [if x], [x or y] and [not x] test it. *)
Definition str_truthy (s : string) : bool :=
  match s with EmptyString => false | _ => true end.

Definition float_truthy (f : pyfloat) : bool :=
  match f with Fin q => negb (Qeq_bool q 0) | _ => true end.

Definition truthy (v : pyval) : bool :=
  match v with
  | PNone => false
  | PBool b => b
  | PInt n => negb (n =? 0)
  | PFloat f => float_truthy f
  | PStr s => str_truthy s
  | PDatetime _ => true
  | PList l => match l with [] => false | _ => true end
  | PDict d => match d with [] => false | _ => true end
  end.

(** [a or b] on strings. *)
Definition str_or (a b : string) : string := if str_truthy a then a else b.

(** *** Characters and [str] methods *)

Definition is_digit (c : ascii) : bool :=
  let n := N_of_ascii c in ((48 <=? n) && (n <=? 57))%N.

Definition digit_val (c : ascii) : Z := Z.of_N (N_of_ascii c) - 48.

(** ASCII white space, the part of [str.isspace] that fits in one byte. *)
Definition is_space (c : ascii) : bool :=
  let n := N_of_ascii c in
  (((9 <=? n) && (n <=? 13)) || ((28 <=? n) && (n <=? 32)))%N.

Definition lower_char (c : ascii) : ascii :=
  let n := N_of_ascii c in
  if ((65 <=? n) && (n <=? 90))%N then ascii_of_N (n + 32) else c.

Fixpoint lower (s : string) : string :=
  match s with
  | EmptyString => EmptyString
  | String c s' => String (lower_char c) (lower s')
  end.

Fixpoint lstrip (s : string) : string :=
  match s with
  | String c s' => if is_space c then lstrip s' else s
  | EmptyString => EmptyString
  end.

Definition rstrip (s : string) : string :=
  String.rev (lstrip (String.rev s)).

Definition strip (s : string) : string := rstrip (lstrip s).

(** [s.replace(",", "")] *)
Fixpoint remove_char (x : ascii) (s : string) : string :=
  match s with
  | EmptyString => EmptyString
  | String c s' =>
      if Ascii.eqb c x then remove_char x s' else String c (remove_char x s')
  end.

Definition endswith (s suffix : string) : bool :=
  let n := String.length s in
  let k := String.length suffix in
  (k <=? n)%nat && String.eqb (String.substring (n - k) k s) suffix.

(** [s[:-k]] for [k > 0]. *)
Definition drop_last (k : nat) (s : string) : string :=
  String.substring 0 (String.length s - k) s.

(** *** Decimal digits

    [digits_from prev acc s] reads a run of digits in which single
    underscores may separate digits, as [int()] and [float()] accept. *)
Fixpoint digits_from (prev_digit : bool) (acc : Z) (s : string) : option Z :=
  match s with
  | EmptyString => if prev_digit then Some acc else None
  | String c s' =>
      if is_digit c then digits_from true (10 * acc + digit_val c) s'
      else if Ascii.eqb c "_" && prev_digit then
        match s' with
        | String c' _ => if is_digit c' then digits_from false acc s' else None
        | EmptyString => None
        end
      else None
  end.

Definition digits (s : string) : option Z := digits_from false 0 s.

(** An optional sign in front of [body]. *)
Definition signed {A} (body : string -> option A) (neg : A -> A)
    (s : string) : option A :=
  match s with
  | String "-" s' => option_map neg (body s')
  | String "+" s' => body s'
  | _ => body s
  end.

(** [int(s)] for a string in base 10. *)
Definition int_of_str (s : string) : result Z :=
  match signed digits Z.opp (strip s) with
  | Some n => Ok n
  | None => Raise ValueError
  end.

(** Truncation toward zero. *)
Definition Qtrunc (q : Q) : Z := Z.quot (Qnum q) (Zpos (Qden q)).

(** [int(f)] for a float. *)
Definition int_of_float (f : pyfloat) : result Z :=
  match f with
  | Fin q => Ok (Qtrunc q)
  | PosInf | NegInf => Raise OverflowError
  | NaN => Raise ValueError
  end.

(** [int(v)] *)
Definition py_int (v : pyval) : result Z :=
  match v with
  | PInt n => Ok n
  | PBool b => Ok (if b then 1 else 0)
  | PFloat f => int_of_float f
  | PStr s => int_of_str s
  | _ => Raise TypeError
  end.

(** [f"{n}"] for an integer. *)
Definition show_int (n : Z) : string := NilZero.string_of_int (Z.to_int n).

End Py.

Import Py.

(** ** Naive [datetime] values

    A naive datetime is the number of microseconds since 0001-01-01T00:00:00
    of the proleptic Gregorian calendar; a [timedelta] is a number of
    microseconds.  The calendar arithmetic is that of [datetime.py]
    ([_ymd2ord], [_ord2ymd]).  [fromisoformat] reads the texts [isoformat]
    writes for naive datetimes ([YYYY-MM-DD], then optionally one separator
    character and [HH[:MM[:SS[.fff[fff]]]]]); any other text is a
    [ValueError] here. *)

Module PyTime.

Definition us_per_second : Z := 1000000.
Definition us_per_minute : Z := 60 * us_per_second.
Definition us_per_day : Z := 86400 * us_per_second.

(** [timedelta(minutes=m)] *)
Definition minutes (m : Z) : Z := m * us_per_minute.

Definition _is_leap (year : Z) : bool :=
  (year mod 4 =? 0) && (negb (year mod 100 =? 0) || (year mod 400 =? 0)).

Definition _days_before_year (year : Z) : Z :=
  let y := year - 1 in y * 365 + y / 4 - y / 100 + y / 400.

Definition _DAYS_IN_MONTH : list Z :=
  [31; 28; 31; 30; 31; 30; 31; 31; 30; 31; 30; 31].

Definition _DAYS_BEFORE_MONTH : list Z :=
  [0; 31; 59; 90; 120; 151; 181; 212; 243; 273; 304; 334].

Definition month_entry (table : list Z) (month : Z) : Z :=
  nth (Z.to_nat (month - 1)) table 0.

Definition _days_in_month (year month : Z) : Z :=
  if (month =? 2) && _is_leap year then 29
  else month_entry _DAYS_IN_MONTH month.

Definition _days_before_month (year month : Z) : Z :=
  month_entry _DAYS_BEFORE_MONTH month
  + (if (2 <? month) && _is_leap year then 1 else 0).

Definition _ymd2ord (year month day : Z) : Z :=
  _days_before_year year + _days_before_month year month + day.

Definition _DI400Y : Z := 146097.
Definition _DI100Y : Z := 36524.
Definition _DI4Y : Z := 1461.

Definition _ord2ymd (ord : Z) : Z * Z * Z :=
  let n := ord - 1 in
  let n400 := n / _DI400Y in let n := n mod _DI400Y in
  let year := n400 * 400 + 1 in
  let n100 := n / _DI100Y in let n := n mod _DI100Y in
  let n4 := n / _DI4Y in let n := n mod _DI4Y in
  let n1 := n / 365 in let n := n mod 365 in
  let year := year + n100 * 100 + n4 * 4 + n1 in
  if (n1 =? 4) || (n100 =? 4) then (year - 1, 12, 31)
  else
    let leapyear := (n1 =? 3) && (negb (n4 =? 24) || (n100 =? 3)) in
    let month := Z.shiftr (n + 50) 5 in
    let preceding :=
      month_entry _DAYS_BEFORE_MONTH month
      + (if (2 <? month) && leapyear then 1 else 0) in
    if n <? preceding then
      let month := month - 1 in
      let preceding :=
        preceding - (month_entry _DAYS_IN_MONTH month
                     + (if (month =? 2) && leapyear then 1 else 0)) in
      (year, month, n - preceding + 1)
    else (year, month, n - preceding + 1).

(** [datetime(year, month, day, hour, minute, second, microsecond)] *)
Definition datetime (year month day hour minute second micro : Z) : Z :=
  ((_ymd2ord year month day - 1) * 86400
   + hour * 3600 + minute * 60 + second) * us_per_second + micro.

(** [%0<width>d] for a non-negative number. *)
Definition pad_dec (width : nat) (n : nat) : string :=
  let s := NilZero.string_of_uint (Nat.to_uint n) in
  String.append
    (string_of_list_ascii (repeat "0"%char (width - String.length s))) s.

Definition padz (width : nat) (n : Z) : string := pad_dec width (Z.to_nat n).

(** Reading a decimal numeral back, leading zeros allowed. *)
Definition decode_dec (s : string) : option nat :=
  Nat.of_uint <$> NilEmpty.uint_of_string s.

Definition isoformat (t : Z) : string :=
  let day := t / us_per_day in
  let rest := t mod us_per_day in
  let '(y, m, d) := _ord2ymd (day + 1) in
  let secs := rest / us_per_second in
  let micro := rest mod us_per_second in
  let hms :=
    padz 2 (secs / 3600) +:+ ":" +:+ padz 2 (secs / 60 mod 60)
    +:+ ":" +:+ padz 2 (secs mod 60) in
  padz 4 y +:+ "-" +:+ padz 2 m +:+ "-" +:+ padz 2 d +:+ "T" +:+ hms
  +:+ (if micro =? 0 then "" else "." +:+ padz 6 micro).

(** A field of exactly [len] digits starting at [pos]. *)
Fixpoint all_digits (acc : Z) (s : string) : option Z :=
  match s with
  | EmptyString => Some acc
  | String c s' =>
      if is_digit c then all_digits (10 * acc + digit_val c) s' else None
  end.

Definition field (pos len : nat) (s : string) : option Z :=
  let f := String.substring pos len s in
  if (String.length f =? len)%nat then all_digits 0 f else None.

Definition char_is (pos : nat) (c : ascii) (s : string) : bool :=
  match String.get pos s with
  | Some c' => Ascii.eqb c c'
  | None => false
  end.

Definition in_range (lo hi v : Z) : bool := (lo <=? v) && (v <=? hi).

Definition parse_date (s : string) : option Z :=
  y ← field 0 4 s; m ← field 5 2 s; d ← field 8 2 s;
  if char_is 4 "-" s && char_is 7 "-" s
     && in_range 1 9999 y && in_range 1 12 m
     && in_range 1 (_days_in_month y m) d
  then Some (_ymd2ord y m d) else None.

(** The time of day in microseconds, from [HH[:MM[:SS[.fff[fff]]]]]. *)
Definition parse_time (s : string) : option Z :=
  let len := String.length s in
  h ← field 0 2 s;
  mi ← (if (len =? 2)%nat then Some 0
        else if char_is 2 ":" s then field 3 2 s else None);
  se ← (if (len <=? 5)%nat then Some 0
        else if char_is 5 ":" s then field 6 2 s else None);
  us ← (if (len <=? 8)%nat then Some 0
        else if negb (char_is 8 "." s) then None
        else if (len =? 12)%nat then (f ← field 9 3 s; Some (f * 1000))
        else if (len =? 15)%nat then field 9 6 s
        else None);
  if ((len =? 2) || (len =? 5) || (len =? 8) || (len =? 12) || (len =? 15))%nat
     && in_range 0 23 h && in_range 0 59 mi && in_range 0 59 se
  then Some ((h * 3600 + mi * 60 + se) * us_per_second + us) else None.

(** [datetime.fromisoformat(s)]; [None] stands for [ValueError]. *)
Definition fromisoformat (s : string) : option Z :=
  let len := String.length s in
  ord ← parse_date (String.substring 0 10 s);
  if (len <? 10)%nat then None
  else if (len =? 10)%nat then Some ((ord - 1) * us_per_day)
  else
    tod ← parse_time (String.substring 11 (len - 11) s);
    Some ((ord - 1) * us_per_day + tod).

End PyTime.

(** ** [alerts/store.py]: the in-memory alert store

    An operation takes the store and the reading [now] of the injected clock
    and gives back the store it leaves behind together with its outcome, so
    that what an exception leaves of the store is part of the model.  The
    records live in the dictionary [_alerts]; an [Alert] object is reachable
    only through the key it is stored under. *)

Module AlertStore.

Record Alert : Type := mkAlert {
  id : string;
  type : string;
  severity : string;
  status : string;
  title : string;
  message : string;
  source : string;
  created_at : string;
  updated_at : string;
  fingerprint : string;
  entity : option (list (string * pyval));
  explanation : option (list (string * pyval));
  meta : option (gmap string pyval)
}.

Record t : Type := mkStore {
  _alerts : gmap string Alert;
  _fingerprint_index : gmap string string;
  _dedupe_window : Z;
  _sequence : nat
}.

(** [AlertStore(dedupe_window_minutes=m)] *)
Definition init (dedupe_window_minutes : Z) : t :=
  mkStore ∅ ∅ (PyTime.minutes dedupe_window_minutes) 0.

(** [ALERT_STORE = AlertStore()] *)
Definition ALERT_STORE : t := init 10.

Definition set_alerts (s : t) (m : gmap string Alert) : t :=
  mkStore m (_fingerprint_index s) (_dedupe_window s) (_sequence s).

(** [f"alert-{n:06d}"] *)
Definition format_id (n : nat) : string := "alert-" +:+ PyTime.pad_dec 6 n.

Definition _new_id (s : t) : t * string :=
  let n := S (_sequence s) in
  (mkStore (_alerts s) (_fingerprint_index s) (_dedupe_window s) n,
   format_id n).

(** [existing.meta or {}] *)
Definition meta_or_empty (m : option (gmap string pyval)) : gmap string pyval :=
  default ∅ m.

(** The record the merge branch leaves in place of [existing]. *)
Definition merged (existing alert : Alert) (now occurrences : Z) : Alert :=
  let meta0 := meta_or_empty (meta existing) in
  let meta1 := <["occurrences" := PInt (occurrences + 1)]> meta0 in
  let meta2 := <["last_message" := PStr (message alert)]> meta1 in
  mkAlert (id existing) (type existing) (severity existing) (status existing)
    (title existing) (message alert) (source existing) (created_at existing)
    (PyTime.isoformat now) (fingerprint existing) (entity existing)
    (explanation existing) (Some meta2).

(** Lines 44-64: a fresh record, stored by id and by fingerprint. *)
Definition create (s : t) (now : Z) (alert : Alert) : t * Alert :=
  let created := str_or (created_at alert) (PyTime.isoformat now) in
  let updated := str_or (updated_at alert) (PyTime.isoformat now) in
  let '(s1, new_id) :=
    if str_truthy (id alert) then (s, id alert) else _new_id s in
  let model :=
    mkAlert new_id (type alert) (severity alert) (status alert) (title alert)
      (message alert) (source alert) created updated (fingerprint alert)
      (entity alert) (explanation alert)
      (Some (meta_or_empty (meta alert) ∪ {["occurrences" := PInt 1]})) in
  (mkStore (<[id model := model]> (_alerts s1))
     (<[fingerprint alert := id model]> (_fingerprint_index s1))
     (_dedupe_window s1) (_sequence s1),
   model).

(** [existing_id and existing_id in self._alerts], then the record. *)
Definition find_existing (s : t) (fp : string) : option Alert :=
  match _fingerprint_index s !! fp with
  | Some existing_id =>
      if str_truthy existing_id then _alerts s !! existing_id else None
  | None => None
  end.

Definition upsert_alert (s : t) (now : Z) (alert : Alert) : t * result Alert :=
  match find_existing s (fingerprint alert) with
  | Some existing =>
      match PyTime.fromisoformat (updated_at existing) with
      | None => (s, Raise ValueError)
      | Some last_updated =>
          if now - last_updated <=? _dedupe_window s then
            match py_int (default (PInt 1)
                            (meta_or_empty (meta existing) !! "occurrences")) with
            | Raise e => (s, Raise e)
            | Ok n =>
                let existing' := merged existing alert now n in
                (set_alerts s (<[id existing' := existing']> (_alerts s)),
                 Ok existing')
            end
          else
            let '(s', model) := create s now alert in (s', Ok model)
      end
  | None => let '(s', model) := create s now alert in (s', Ok model)
  end.

Definition get_alert (s : t) (alert_id : string) : option Alert :=
  _alerts s !! alert_id.

(** The record [acknowledge] / [resolve] leave behind: [status] set,
    [updated_at] stamped, the actor put in [meta] under [key]. *)
Definition transition (alert : Alert) (new_status key actor : string)
    (now : Z) : Alert :=
  mkAlert (id alert) (type alert) (severity alert) new_status (title alert)
    (message alert) (source alert) (created_at alert) (PyTime.isoformat now)
    (fingerprint alert) (entity alert) (explanation alert)
    (Some (<[key := PStr actor]> (meta_or_empty (meta alert)))).

Definition acknowledge (s : t) (now : Z) (alert_id actor : string)
    : t * result Alert :=
  match _alerts s !! alert_id with
  | None => (s, Raise KeyError)
  | Some alert =>
      let alert' := transition alert "acknowledged" "ack_by" actor now in
      (set_alerts s (<[alert_id := alert']> (_alerts s)), Ok alert')
  end.

Definition resolve (s : t) (now : Z) (alert_id actor : string)
    : t * result Alert :=
  match _alerts s !! alert_id with
  | None => (s, Raise KeyError)
  | Some alert =>
      let alert' := transition alert "resolved" "resolved_by" actor now in
      (set_alerts s (<[alert_id := alert']> (_alerts s)), Ok alert')
  end.

Definition clear_all (s : t) : t * nat :=
  (mkStore ∅ ∅ (_dedupe_window s) (_sequence s), size (_alerts s)).

(** One call on the store. *)
Inductive op : Type :=
| Upsert (now : Z) (alert : Alert)
| Acknowledge (now : Z) (alert_id actor : string)
| Resolve (now : Z) (alert_id actor : string)
| ClearAll.

Definition run (s : t) (o : op) : t :=
  match o with
  | Upsert now alert => fst (upsert_alert s now alert)
  | Acknowledge now alert_id actor => fst (acknowledge s now alert_id actor)
  | Resolve now alert_id actor => fst (resolve s now alert_id actor)
  | ClearAll => fst (clear_all s)
  end.

(** The stores a process can be in: any calls, from the empty store. *)
Inductive reachable (window : Z) : t -> Prop :=
| reach_init : reachable window (init window)
| reach_step s o : reachable window s -> reachable window (run s o).

(** Every id in the fingerprint index is the key of a stored record. *)
Definition index_sound (s : t) : Prop :=
  forall fp i, _fingerprint_index s !! fp = Some i -> is_Some (_alerts s !! i).

(** Every record is stored under its own id. *)
Definition keyed_by_id (s : t) : Prop :=
  forall k a, _alerts s !! k = Some a -> id a = k.

(** A record that no entry of the fingerprint index points to. *)
Definition orphan (s : t) (k : string) : Prop :=
  is_Some (_alerts s !! k) /\ forall fp, _fingerprint_index s !! fp <> Some k.

(** What [upsert_alert] does to the store, case by case. *)
Inductive upsert_outcome (s : t) (now : Z) (alert : Alert) : t -> Prop :=
| upsert_failed : upsert_outcome s now alert s
| upsert_merged existing_id existing n :
    _alerts s !! existing_id = Some existing ->
    upsert_outcome s now alert
      (set_alerts s (<[id existing := merged existing alert now n]> (_alerts s)))
| upsert_created :
    upsert_outcome s now alert (create s now alert).1.

(** The alert of [test_store_dedupe_behavior_and_occurrence_counter] and
    the instant its clock starts at. *)
Definition noon : Z := PyTime.datetime 2026 2 17 12 0 0 0.

Definition cpu_alert : Alert :=
  mkAlert "" "cpu_spike" "critical" "active" "CPU Spike" "CPU > 85%" "ai"
    (PyTime.isoformat noon) (PyTime.isoformat noon)
    "cpu_spike|node=n1|mode=demo" (Some [("node", PStr "n1")]) None None.

(** The store after the first upsert of [cpu_alert] at [noon]. *)
Definition after_first : t := fst (upsert_alert ALERT_STORE noon cpu_alert).

(** The store after the same alert came back [minutes] minutes later. *)
Definition after_second (minutes : Z) : t :=
  run (run ALERT_STORE (Upsert noon cpu_alert))
    (Upsert (noon + PyTime.minutes minutes) cpu_alert).


End AlertStore.

(** ** [audit/store.py]: the bounded audit log *)

Module AuditStore.

Record AuditEvent : Type := mkEvent {
  id : string;
  ts : string;
  actor_email : string;
  actor_role : string;
  action : string;
  target_id : option string;
  metadata : list (string * pyval)
}.

(** What [list_events] reads of the current user. *)
Record Actor : Type := mkActor {
  email : string;
  role : string
}.

Record t : Type := mkStore {
  _max_size : Z;
  _events : list AuditEvent;
  _sequence : nat
}.

Definition init (max_size : Z) : t := mkStore max_size [] 0.

(** [AUDIT_STORE = AuditStore()] *)
Definition AUDIT_STORE : t := init 2000.

(** [f"audit-{n:08d}"] *)
Definition format_id (n : nat) : string := "audit-" +:+ PyTime.pad_dec 8 n.

Definition _next_id (s : t) : t * string :=
  let n := S (_sequence s) in
  (mkStore (_max_size s) (_events s) n, format_id n).

Definition append (s : t) (event : AuditEvent) : t * AuditEvent :=
  let '(s1, new_id) :=
    if str_truthy (id event) then (s, id event) else _next_id s in
  let payload :=
    mkEvent new_id (ts event) (actor_email event) (actor_role event)
      (action event) (target_id event) (metadata event) in
  let events := _events s1 ++ [payload] in
  let len := Z.of_nat (length events) in
  let events :=
    if _max_size s1 <? len
    then drop (Z.to_nat (len - _max_size s1)) events
    else events in
  (mkStore (_max_size s1) events (_sequence s1), payload).

(** [visible.sort(key=lambda item: item.ts, reverse=True)]: the sort is
    stable, so events with the same [ts] keep their relative order.
    Strings compare byte by byte, which on UTF-8 text is the order of the
    code points. *)
Fixpoint insert_desc (x : AuditEvent) (l : list AuditEvent) : list AuditEvent :=
  match l with
  | [] => [x]
  | y :: l' => if String.ltb (ts x) (ts y) then y :: insert_desc x l' else x :: l
  end.

Definition sort_newest_first (l : list AuditEvent) : list AuditEvent :=
  foldr insert_desc [] l.

(** The events of the actor himself:
    [[event for event in events if event.actor_email == actor.email]]. *)
Definition own (actor : Actor) (events : list AuditEvent) : list AuditEvent :=
  filter (fun event => actor_email event = email actor) events.

Definition visible_to (actor : Actor) (events : list AuditEvent)
    : list AuditEvent :=
  if String.eqb (role actor) "admin" then events else own actor events.

(** The [for ... enumerate(visible)] loop: one past the first event whose
    id is the cursor, 0 when there is none. *)
Fixpoint start_after (cursor : string) (visible : list AuditEvent) : option nat :=
  match visible with
  | [] => None
  | event :: rest =>
      if String.eqb (id event) cursor then Some 1%nat
      else S <$> start_after cursor rest
  end.

Definition start_index (cursor : option string) (visible : list AuditEvent)
    : nat :=
  match cursor with
  | Some c => if str_truthy c then default 0%nat (start_after c visible) else 0%nat
  | None => 0%nat
  end.

Definition safe_limit (limit : Z) : nat := Z.to_nat (Z.max 1 (Z.min limit 500)).

(** Lines 152-161: the page after the cursor and the cursor to go on with. *)
Definition paginate (visible : list AuditEvent) (limit : Z)
    (cursor : option string) : list AuditEvent * option string :=
  let start := start_index cursor visible in
  let page := take (safe_limit limit) (drop start visible) in
  let next_cursor :=
    if ((start + safe_limit limit <? length visible)%nat)
    then id <$> last page else None in
  (page, next_cursor).

Definition list_events (s : t) (actor : Actor) (limit : Z)
    (cursor : option string) : list AuditEvent * option string :=
  paginate (sort_newest_first (visible_to actor (_events s))) limit cursor.

Definition clear (s : t) : t := mkStore (_max_size s) [] (_sequence s).

(** A client paging through the log: the first call with [cursor], each
    further call with the [next_cursor] the previous one returned, until
    there is none; [limits] gives the [limit] of each call. *)
Fixpoint pages (s : t) (actor : Actor) (limits : list Z)
    (cursor : option string) : list (list AuditEvent) :=
  match limits with
  | [] => []
  | limit :: rest =>
      let '(page, next_cursor) := list_events s actor limit cursor in
      page :: match next_cursor with
              | Some c => pages s actor rest (Some c)
              | None => []
              end
  end.

(** Newest first: no event is older than the one after it. *)
Definition newer_eq (a b : AuditEvent) : Prop := String.le (ts b) (ts a).

(** Ids distinct and not empty, as the ids the store assigns are. *)
Definition ids_wellformed (events : list AuditEvent) : Prop :=
  NoDup (id <$> events) /\ Forall (fun event => id event <> "") events.

(** The logs written through [append] by callers that leave the id to the
    store, as the HTTP layer does. *)
Inductive store_assigned (max_size : Z) : t -> Prop :=
| assigned_init : store_assigned max_size (init max_size)
| assigned_append s event :
    store_assigned max_size s -> id event = "" ->
    store_assigned max_size (append s event).1.

(** An operator and a log in which a caller supplied the same id twice. *)
Definition ops : Actor := mkActor "ops@example.com" "operator".

Definition ops_event (event_id ts : string) : AuditEvent :=
  mkEvent event_id ts "ops@example.com" "operator" "login" None [].

Definition duplicated : t :=
  let s := (append AUDIT_STORE (ops_event "evt" "2026-02-17T12:03:00")).1 in
  let s := (append s (ops_event "evt" "2026-02-17T12:02:00")).1 in
  (append s (ops_event "other" "2026-02-17T12:01:00")).1.

(** The log of [test_role_scoped_listing_and_cursor], ids left to the store. *)
Definition scoped_log : t :=
  let s := (append (init 10) (ops_event "" "2026-02-17T12:00:00")).1 in
  let s := (append s (ops_event "" "2026-02-17T12:01:00")).1 in
  let s := (append s (ops_event "" "2026-02-17T12:02:00")).1 in
  (append s (mkEvent "" "2026-02-17T12:10:00" "admin@example.com" "admin"
               "admin-action" None [])).1.

End AuditStore.

(** ** [services/alerts/engine.py]: the dedupe key

    A dictionary is its list of items in insertion order, keys distinct;
    [show] is the text [f"{v}"] gives for a value. *)

Module AlertEngine.

Section Fingerprint.
Context {V : Type} (show : V -> string).

(** ["|".join(parts)] *)
Fixpoint join (sep : string) (parts : list string) : string :=
  match parts with
  | [] => ""
  | [p] => p
  | p :: rest => p +:+ sep +:+ join sep rest
  end.

(** [sorted(entity.keys())] *)
Definition sorted_keys (entity : list (string * V)) : list string :=
  merge_sort String.le (entity.*1).

(** [f"{k}={entity[k]}"] *)
Definition label (entity : list (string * V)) (k : string) : string :=
  k +:+ "=" +:+ from_option show "" (dict_get entity k).

Definition _fingerprint (alert_type : string) (entity : list (string * V))
    (mode : string) : string :=
  let ordered :=
    match entity with
    | [] => "entity=cluster"
    | _ => join "|" (label entity <$> sorted_keys entity)
    end in
  alert_type +:+ "|" +:+ ordered +:+ "|mode=" +:+ mode.
End Fingerprint.

End AlertEngine.

(** ** Float arithmetic on the finite floats

    The engines compute with finite floats, represented by the rationals
    they denote; [round2] is [round(x, 2)], which rounds to the nearest
    multiple of 0.01, ties to the even one. *)

Module Num.
Local Open Scope Q_scope.

(** [a > b], [a >= b], [a < b] *)
Definition gtb (a b : Q) : bool := negb (Qle_bool a b).
Definition geb (a b : Q) : bool := Qle_bool b a.
Definition ltb (a b : Q) : bool := negb (Qle_bool b a).

(** [max(a, b)] and [min(a, b)] keep the first argument on a tie. *)
Definition py_max (a b : Q) : Q := if gtb b a then b else a.
Definition py_min (a b : Q) : Q := if ltb b a then b else a.

(** [max(low, min(high, value))] *)
Definition _clamp (value low high : Q) : Q := py_max low (py_min high value).

Definition py_abs (a : Q) : Q := if ltb a 0 then - a else a.



(** [sum(xs)]: from 0, left to right. *)
Definition sum (xs : list Q) : Q := fold_left Qplus xs 0.

(** [len(xs)] as a float. *)
Definition len {A} (xs : list A) : Q := inject_Z (Z.of_nat (length xs)).


#[global] Instance Qlt_decision (a b : Q) : Decision (a < b) :=
  match Qlt_le_dec a b with
  | left H => left H
  | right H => right (Qle_not_lt _ _ H)
  end.

#[global] Instance Qle_decision (a b : Q) : Decision (a <= b) :=
  match Qlt_le_dec b a with
  | left H => right (Qlt_not_le _ _ H)
  | right H => left H
  end.
End Num.

(** ** [services/ai/anomaly_engine.py] *)

Module Anomaly.
Import Num.
Local Open Scope Q_scope.

Record FeatureVector : Type := mkFeatures {
  cpu_usage : Q;
  memory_usage : Q;
  storage_usage : Q;
  network_io : Q;
  anomaly_count : Z;
  timestamp : Z
}.

Record AgentAnomaly : Type := mkAnomaly {
  type : string;
  severity : string;
  confidence : Q;
  explanation : string
}.







End Anomaly.

(** ** [ai/forecast_engine.py] *)

Module Forecast.
Import Num.
Export Anomaly (FeatureVector, cpu_usage, timestamp).
Local Open Scope Q_scope.

Record SeriesPoint : Type := mkPoint {
  point_timestamp : string;
  value : Q;
  lower_bound : Q;
  upper_bound : Q
}.

Record ForecastResult : Type := mkForecast {
  predicted_peak : Q;
  peak_time : string;
  trend : string;
  risk_level : string;
  confidence : Q;
  forecast_series : list SeriesPoint
}.










End Forecast.

(** ** [ai/recommendation_engine.py]

    [float_str x] is the text [f"{x}"] of a float. *)

Module Recommend.
Import Num.
Local Open Scope Q_scope.

Record Recommendation : Type := mkReco {
  type : string;
  priority : string;
  target : string;
  reason : string;
  confidence : Q;
  impact : string
}.

Definition _contains (anomalies : list Anomaly.AgentAnomaly)
    (anomaly_type : string) : bool :=
  existsb (fun item => String.eqb (Anomaly.type item) anomaly_type) anomalies.

Definition maintain_baseline : Recommendation :=
  mkReco "maintain_baseline" "low" "cluster/all" "No critical risk detected"
    0.8 "Keeps cluster stable while monitoring".

Section Generate.
Variable float_str : Q -> string.

Definition generate_recommendations (features : Anomaly.FeatureVector)
    (anomalies : list Anomaly.AgentAnomaly)
    (forecast : Forecast.ForecastResult) : list Recommendation :=
  let recommendations :=
    (if _contains anomalies "cpu_spike" then
       [mkReco "scale_deployment" "high" "deployment/api"
          "CPU anomaly indicates sustained pressure" 0.88
          "Reduces throttling and latency"]
     else [])
    ++
    (if _contains anomalies "memory_pressure" then
       [mkReco "tune_memory_limits" "high" "deployment/api"
          "Memory exceeded safe operating threshold" 0.9
          "Prevents OOM kills"]
     else [])
    ++
    (if String.eqb (Forecast.risk_level forecast) "high" then
       [mkReco "proactive_scaling" "high" "deployment/api"
          ("Forecast peak at "
           +:+ float_str (Forecast.predicted_peak forecast) +:+ "%")
          0.87 "Prevents SLA breach during predicted peak"]
     else [])
    ++
    (if gtb (Anomaly.storage_usage features) 85 then
       [mkReco "storage_optimization" "medium" "namespace/logging"
          "Storage usage is above 85%" 0.84 "Avoids storage saturation"]
     else []) in
  match recommendations with
  | [] => [maintain_baseline]
  | _ => recommendations
  end.
End Generate.

(** A quiet cluster: nothing detected, a low forecast, storage at 50%. *)
Definition quiet : Anomaly.FeatureVector :=
  Anomaly.mkFeatures 40 50 50 20 0 (PyTime.datetime 2026 2 17 12 0 0 0).

Definition quiet_forecast : Forecast.ForecastResult :=
  Forecast.mkForecast 42 "2026-02-17T12:05:00" "stable" "low" 0.9 [].

End Recommend.

(** ** [services/alerts/risk.py]

    The arguments are dictionaries read with [.get]: a field is [None] when
    the key is missing.  Numeric entries are finite floats; [peak_time] is
    [None] also when the entry is not a string, which [fromisoformat]
    answers with the [TypeError] the parser catches. *)

Module Risk.
Import Num.
Local Open Scope Q_scope.


















End Risk.

(** ** [services/ai/feature_extractor.py]

    The payload is a [Dict[str, Any]].  [float(text)] follows the grammar of
    the language reference: white space stripped, an optional sign, then
    [inf], [infinity], [nan] or a decimal number with optional fraction and
    exponent, letters in either case.  A finite result is the rational the
    text denotes. *)

Module Features.
Local Open Scope Q_scope.

Record FeatureVector : Type := mkFeatures {
  cpu_usage : pyfloat;
  memory_usage : pyfloat;
  storage_usage : pyfloat;
  network_io : pyfloat;
  anomaly_count : Z;
  timestamp : Z
}.

(** [s.partition(c)]: the text before the first [c] and, when there is
    one, the text after it. *)
Fixpoint split_on (c : ascii) (s : string) : string * option string :=
  match s with
  | EmptyString => (EmptyString, None)
  | String a s' =>
      if Ascii.eqb a c then (EmptyString, Some s')
      else let '(before, after) := split_on c s' in (String a before, after)
  end.

Fixpoint count_digits (s : string) : nat :=
  match s with
  | EmptyString => 0
  | String a s' => if is_digit a then S (count_digits s') else count_digits s'
  end.

(** [[digitpart] "." digitpart | digitpart ["."]] *)
Definition mantissa (s : string) : option Q :=
  match split_on "." s with
  | (whole, None) => inject_Z <$> digits whole
  | (EmptyString, Some EmptyString) => None
  | (whole, Some frac) =>
      w ← (match whole with EmptyString => Some 0%Z | _ => digits whole end);
      f ← (match frac with EmptyString => Some 0%Z | _ => digits frac end);
      Some (inject_Z w + inject_Z f / inject_Z (10 ^ Z.of_nat (count_digits frac)))
  end.

Definition number (s : string) : option Q :=
  match split_on "e" s with
  | (m, None) => mantissa m
  | (m, Some e) =>
      q ← mantissa m;
      x ← signed digits Z.opp e;
      Some (q * Qpower 10 x)
  end.

Definition float_neg (f : pyfloat) : pyfloat :=
  match f with
  | Fin q => Fin (- q)
  | PosInf => NegInf
  | NegInf => PosInf
  | NaN => NaN
  end.

Definition unsigned_float (s : string) : option pyfloat :=
  if String.eqb s "inf" || String.eqb s "infinity" then Some PosInf
  else if String.eqb s "nan" then Some NaN
  else Fin <$> number s.

(** [float(text)] *)
Definition float_of_str (text : string) : result pyfloat :=
  match signed unsigned_float float_neg (lower (strip text)) with
  | Some f => Ok f
  | None => Raise ValueError
  end.

(** [f * m] for a finite [m > 0]. *)
Definition scale (f : pyfloat) (m : Q) : pyfloat :=
  match f with
  | Fin q => Fin (q * m)
  | _ => f
  end.

(** [max(0.0, f)]: [f] only when it compares greater than [0.0]. *)
Definition max0 (f : pyfloat) : pyfloat :=
  match f with
  | Fin q => if Num.gtb q 0 then Fin q else Fin 0
  | PosInf => PosInf
  | NegInf | NaN => Fin 0
  end.

(** [d.get(k)] *)
Definition py_get (d : list (string * pyval)) (k : string) : pyval :=
  default PNone (dict_get d k).

(** [v.get(k)] on an arbitrary value: only a dictionary has the method. *)
Definition method_get (v : pyval) (k : string) : result pyval :=
  match v with
  | PDict d => Ok (py_get d k)
  | _ => Raise AttributeError
  end.

(** The unit suffix of lines 20-27: what is left and the multiplier. *)
Definition strip_unit (cleaned : string) : string * Q :=
  if endswith cleaned "mbps" then (strip (drop_last 4 cleaned), 1)
  else if endswith cleaned "gbps" then (strip (drop_last 4 cleaned), 1000)
  else if endswith cleaned "kbps" then (strip (drop_last 4 cleaned), 0.001)
  else (cleaned, 1).

Definition strip_percent (cleaned : string) : string :=
  if endswith cleaned "%" then strip (drop_last 1 cleaned) else cleaned.

Definition _to_float (value : pyval) (default : pyfloat) : pyfloat :=
  match value with
  | PNone => default
  | PBool b => Fin (if b then 1 else 0)
  | PInt n => Fin (inject_Z n)
  | PFloat f => f
  | PStr text =>
      let cleaned := remove_char "," (lower (strip text)) in
      let '(cleaned, multiplier) := strip_unit cleaned in
      let cleaned := strip_percent cleaned in
      match float_of_str cleaned with
      | Ok f => scale f multiplier
      | Raise _ => default
      end
  | _ => default
  end.

Definition _to_int (value : pyval) (default : Z) : result Z :=
  match value with
  | PNone => Ok default
  | PBool b => Ok (if b then 1 else 0)%Z
  | PInt n => Ok n
  | PFloat f => int_of_float f
  | PStr text =>
      except_ValueError (f ← float_of_str (strip text); int_of_float f) default
  | _ => Ok default
  end.

Definition extract_features (source : option (list (string * pyval)))
    (anomalies_count : option Z) (timestamp : option Z) (now : Z)
    : result FeatureVector :=
  let source := default [] source in
  let cluster_metrics :=
    let v := py_get source "cluster_metrics" in
    if truthy v then v else PDict [] in
  let metric (name : string) : result pyfloat :=
    inner ← method_get cluster_metrics name;
    Ok (_to_float inner (_to_float (py_get source name) (Fin 0))) in
  cpu_usage ← metric "cpu_usage";
  memory_usage ← metric "memory_usage";
  storage_usage ← metric "storage_usage";
  network_io ← metric "network_io";
  count_default ← _to_int (py_get source "active_anomalies") 0;
  let anomaly_count := default count_default anomalies_count in
  let resolved_timestamp :=
    match timestamp with
    | Some t => t
    | None =>
        match py_get source "timestamp" with
        | PDatetime t => t
        | PStr text => default now (PyTime.fromisoformat text)
        | _ => now
        end
    end in
  Ok (mkFeatures (max0 cpu_usage) (max0 memory_usage) (max0 storage_usage)
        (max0 network_io) (Z.max 0 anomaly_count) resolved_timestamp).

Definition float_ge0 (f : pyfloat) : Prop :=
  match f with
  | Fin q => 0 <= q
  | PosInf => True
  | NegInf | NaN => False
  end.

(** Equality of floats as numbers. *)
Definition float_eq (f g : pyfloat) : Prop :=
  match f, g with
  | Fin a, Fin b => a == b
  | PosInf, PosInf | NegInf, NegInf | NaN, NaN => True
  | _, _ => False
  end.

(** Payloads with one malformed field. *)
Definition count_is_inf : list (string * pyval) :=
  [("cpu_usage", PFloat (Fin 42)); ("active_anomalies", PStr "inf")].

Definition count_is_nan : list (string * pyval) :=
  [("cpu_usage", PFloat (Fin 42)); ("active_anomalies", PFloat NaN)].

Definition metrics_not_a_mapping : list (string * pyval) :=
  [("cluster_metrics", PStr "unavailable"); ("cpu_usage", PFloat (Fin 42))].

End Features.

(** ** The audit log over its life *)

Module AuditLog.
Import AuditStore.

(** The logs a process can hold: any appends and clears, from the empty
    log. *)
Inductive logged (max_size : Z) : t -> Prop :=
| logged_init : logged max_size (init max_size)
| logged_append s event :
    logged max_size s -> logged max_size (append s event).1
| logged_clear s : logged max_size s -> logged max_size (clear s).

(** Three events of one operator, ids left to the store, in a log that
    keeps two. *)
Definition trimmed_log : t :=
  let s := (append (init 2) (ops_event "" "2026-02-17T10:00:00")).1 in
  let s := (append s (ops_event "" "2026-02-17T10:01:00")).1 in
  (append s (ops_event "" "2026-02-17T10:02:00")).1.

End AuditLog.

(** ** Alerts through their life: sample stores *)

Module AlertLife.
Import AlertStore.



(** [cpu_alert] stored at noon, acknowledged one minute later and resolved
    after two. *)
Definition acknowledged_store : t :=
  (acknowledge after_first (noon + PyTime.minutes 1) "alert-000001"
     "ops@example.com").1.

Definition resolved_store : t :=
  (resolve acknowledged_store (noon + PyTime.minutes 2) "alert-000001"
     "admin@example.com").1.

End AlertLife.

(** * Properties *)

(** ** Sequential ids *)

Module PyTimeFacts.
Import PyTime.

Lemma uint_of_string_zeros k s :
  NilEmpty.uint_of_string
    (String.append (string_of_list_ascii (repeat "0"%char k)) s)
  = Nat.iter k (option_map Decimal.D0) (NilEmpty.uint_of_string s).
Proof.
  induction k as [|k IH]; [reflexivity|].
  change (NilEmpty.uint_of_string
            (String "0" (String.append (string_of_list_ascii (repeat "0"%char k)) s))
          = option_map Decimal.D0
              (Nat.iter k (option_map Decimal.D0) (NilEmpty.uint_of_string s))).
  cbn [NilEmpty.uint_of_string]. rewrite IH.
  by destruct (Nat.iter k _ _).
Qed.

Lemma of_uint_zeros k d :
  Nat.of_uint <$> Nat.iter k (option_map Decimal.D0) (Some d)
  = Some (Nat.of_uint d).
Proof.
  induction k as [|k IH]; [reflexivity|].
  cbn [Nat.iter nat_rect]. change (nat_rect _ _ _ k) with
    (Nat.iter k (option_map Decimal.D0) (Some d)).
  destruct (Nat.iter k _ _) as [d'|]; [|discriminate].
  injection IH as IH. simpl. f_equal. exact IH.
Qed.

Lemma decode_pad_dec width n : decode_dec (pad_dec width n) = Some n.
Proof.
  unfold decode_dec, pad_dec.
  rewrite uint_of_string_zeros.
  assert (Hs : NilZero.string_of_uint (Nat.to_uint n)
               = NilEmpty.string_of_uint (Nat.to_uint n)).
  { unfold NilZero.string_of_uint.
    destruct (Nat.to_uint n) eqn:Hd; try reflexivity.
    exfalso. pose proof (f_equal Nat.of_uint Hd) as H0.
    rewrite DecimalNat.Unsigned.of_to in H0. simpl in H0. subst n.
    discriminate Hd. }
  rewrite Hs, NilEmpty.usu, of_uint_zeros.
  by rewrite DecimalNat.Unsigned.of_to.
Qed.

Lemma pad_dec_inj width n m : pad_dec width n = pad_dec width m -> n = m.
Proof.
  intros H. apply (f_equal decode_dec) in H.
  rewrite !decode_pad_dec in H. congruence.
Qed.

End PyTimeFacts.

(** ** The alert store *)

Module AlertStoreFacts.
Import AlertStore.

Lemma find_existing_Some s fp existing_id existing :
  _fingerprint_index s !! fp = Some existing_id ->
  existing_id <> "" ->
  _alerts s !! existing_id = Some existing ->
  find_existing s fp = Some existing.
Proof.
  intros Hfp Hne Ha. unfold find_existing. rewrite Hfp.
  destruct existing_id; [congruence | exact Ha].
Qed.

Lemma find_existing_inv s fp existing :
  find_existing s fp = Some existing ->
  exists existing_id,
    _fingerprint_index s !! fp = Some existing_id
    /\ _alerts s !! existing_id = Some existing.
Proof.
  unfold find_existing. destruct (_fingerprint_index s !! fp) as [i|]; [|done].
  destruct (str_truthy i); [|done]. eauto.
Qed.

Lemma create_alerts s now alert :
  _alerts (create s now alert).1
  = <[id (create s now alert).2 := (create s now alert).2]> (_alerts s).
Proof. unfold create. destruct (str_truthy (id alert)); reflexivity. Qed.

Lemma create_index s now alert :
  _fingerprint_index (create s now alert).1
  = <[fingerprint alert := id (create s now alert).2]> (_fingerprint_index s).
Proof. unfold create. destruct (str_truthy (id alert)); reflexivity. Qed.

Lemma create_id s now alert :
  id (create s now alert).2
  = if str_truthy (id alert) then id alert else format_id (S (_sequence s)).
Proof. unfold create. destruct (str_truthy (id alert)); reflexivity. Qed.

Lemma create_sequence s now alert :
  _sequence (create s now alert).1
  = if str_truthy (id alert) then _sequence s else S (_sequence s).
Proof. unfold create. destruct (str_truthy (id alert)); reflexivity. Qed.

Lemma create_window s now alert :
  _dedupe_window (create s now alert).1 = _dedupe_window s.
Proof. unfold create. destruct (str_truthy (id alert)); reflexivity. Qed.

Lemma upsert_alert_outcome s now alert :
  upsert_outcome s now alert (upsert_alert s now alert).1.
Proof.
  unfold upsert_alert.
  destruct (find_existing s (fingerprint alert)) as [existing|] eqn:Hfind.
  - apply find_existing_inv in Hfind as (existing_id & _ & Ha).
    destruct (PyTime.fromisoformat (updated_at existing)); [|constructor].
    destruct (_ <=? _).
    + destruct (py_int _); [|constructor].
      simpl. by eapply upsert_merged.
    + destruct (create s now alert) as [s' model] eqn:Hc. simpl.
      change s' with (s', model).1. rewrite <- Hc. constructor.
  - destruct (create s now alert) as [s' model] eqn:Hc. simpl.
    change s' with (s', model).1. rewrite <- Hc. constructor.
Qed.

(** *** Acknowledge and resolve *)

Lemma transition_meta alert new_status key actor now :
  exists m,
    meta (transition alert new_status key actor now) = Some m
    /\ m !! key = Some (PStr actor)
    /\ forall k, k <> key -> m !! k = meta_or_empty (meta alert) !! k.
Proof.
  eexists. split; [reflexivity|]. split.
  - apply lookup_insert_eq.
  - intros k Hk. by apply lookup_insert_ne.
Qed.

(** C7. On an id that is not in the store, [acknowledge] and [resolve]
    raise [KeyError] (the NotFound condition) and leave the store as it
    was.  On an id that is in the store they set the status to
    "acknowledged" / "resolved", stamp [updated_at] with the clock, record
    the actor in [meta] under [ack_by] / [resolved_by] (the other entries
    of [meta] and the other fields of the alert stay), and leave every
    other alert, the fingerprint index and the sequence as they were. *)
Theorem acknowledge_resolve_lifecycle (s : t) (now : Z) (alert_id actor : string) :
  match _alerts s !! alert_id with
  | None =>
      acknowledge s now alert_id actor = (s, Raise KeyError)
      /\ resolve s now alert_id actor = (s, Raise KeyError)
  | Some alert =>
      exists s1 a1 s2 a2 m1 m2,
        acknowledge s now alert_id actor = (s1, Ok a1)
        /\ resolve s now alert_id actor = (s2, Ok a2)
        /\ status a1 = "acknowledged" /\ status a2 = "resolved"
        /\ updated_at a1 = PyTime.isoformat now
        /\ updated_at a2 = PyTime.isoformat now
        /\ meta a1 = Some m1 /\ m1 !! "ack_by" = Some (PStr actor)
        /\ meta a2 = Some m2 /\ m2 !! "resolved_by" = Some (PStr actor)
        /\ (forall k, k <> "ack_by" ->
              m1 !! k = meta_or_empty (meta alert) !! k)
        /\ (forall k, k <> "resolved_by" ->
              m2 !! k = meta_or_empty (meta alert) !! k)
        /\ (id a1, type a1, severity a1, title a1, message a1, source a1,
            created_at a1, fingerprint a1, entity a1, explanation a1)
           = (id alert, type alert, severity alert, title alert,
              message alert, source alert, created_at alert,
              fingerprint alert, entity alert, explanation alert)
        /\ (id a2, type a2, severity a2, title a2, message a2, source a2,
            created_at a2, fingerprint a2, entity a2, explanation a2)
           = (id alert, type alert, severity alert, title alert,
              message alert, source alert, created_at alert,
              fingerprint alert, entity alert, explanation alert)
        /\ _alerts s1 !! alert_id = Some a1
        /\ _alerts s2 !! alert_id = Some a2
        /\ (forall other, other <> alert_id ->
              _alerts s1 !! other = _alerts s !! other
              /\ _alerts s2 !! other = _alerts s !! other)
        /\ _fingerprint_index s1 = _fingerprint_index s
        /\ _fingerprint_index s2 = _fingerprint_index s
        /\ _sequence s1 = _sequence s /\ _sequence s2 = _sequence s
  end.
Proof.
  unfold acknowledge, resolve.
  destruct (_alerts s !! alert_id) as [alert|] eqn:Hlook; [|done].
  destruct (transition_meta alert "acknowledged" "ack_by" actor now)
    as (m1 & Hm1 & Hack & Hrest1).
  destruct (transition_meta alert "resolved" "resolved_by" actor now)
    as (m2 & Hm2 & Hres & Hrest2).
  do 4 eexists. exists m1, m2.
  repeat match goal with |- _ /\ _ => split end;
    try reflexivity; try assumption; simpl.
  - apply lookup_insert_eq.
  - apply lookup_insert_eq.
  - intros other Hother. split; by apply lookup_insert_ne.
Qed.

(** The lifecycle on the store holding [cpu_alert]: the stored id is
    acknowledged, an unknown id is refused. *)
Lemma acknowledge_resolve_lifecycle_witness :
  (acknowledge after_first noon "alert-000001" "ops@example.com").2
  <> Raise KeyError
  /\ acknowledge after_first noon "alert-000404" "ops@example.com"
     = (after_first, Raise KeyError).
Proof.
  split.
  - pose proof (acknowledge_resolve_lifecycle after_first noon
                  "alert-000001" "ops@example.com") as H.
    assert (Hl : is_Some (_alerts after_first !! "alert-000001"))
      by (vm_compute; eauto).
    destruct Hl as [a Ha]. rewrite Ha in H.
    destruct H as (s1 & a1 & _ & _ & _ & _ & -> & _). simpl. congruence.
  - pose proof (acknowledge_resolve_lifecycle after_first noon
                  "alert-000404" "ops@example.com") as H.
    assert (Hl : _alerts after_first !! "alert-000404" = None)
      by (vm_compute; reflexivity).
    rewrite Hl in H. apply H.
Defined.

(** *** Upsert on a repeated fingerprint *)

(** C1 as stated fails.  [cpu_alert] is stored at noon as "alert-000001";
    the same alert upserted eleven minutes later, beyond the ten-minute
    window, is not merged: the lookup by fingerprint finds the record, the
    window test fails, and control falls through to the creation code,
    which stores a second record "alert-000002" and leaves the first one
    untouched. *)
Lemma upsert_beyond_window_creates_record :
  let later := noon + PyTime.minutes 11 in
  _fingerprint_index after_first !! fingerprint cpu_alert = Some "alert-000001"
  /\ is_Some (_alerts after_first !! "alert-000001")
  /\ exists s' r,
       upsert_alert after_first later cpu_alert = (s', Ok r)
       /\ id r = "alert-000002"
       /\ size (_alerts after_first) = 1%nat
       /\ size (_alerts s') = 2%nat
       /\ _alerts s' !! "alert-000001" = _alerts after_first !! "alert-000001"
       /\ _fingerprint_index s' !! fingerprint cpu_alert = Some "alert-000002".
Proof.
  split; [vm_compute; reflexivity|].
  split; [vm_compute; eauto|].
  eexists _, _. split; [vm_compute; reflexivity|].
  repeat split; vm_compute; reflexivity.
Qed.

Lemma merged_meta existing alert now n :
  exists m,
    meta (merged existing alert now n) = Some m
    /\ m !! "occurrences" = Some (PInt (n + 1))
    /\ m !! "last_message" = Some (PStr (message alert))
    /\ forall k, k <> "occurrences" -> k <> "last_message" ->
         m !! k = meta_or_empty (meta existing) !! k.
Proof.
  eexists. split; [reflexivity|]. repeat split.
  - rewrite lookup_insert_ne by done. apply lookup_insert_eq.
  - apply lookup_insert_eq.
  - intros k H1 H2. by rewrite !lookup_insert_ne.
Qed.

(** C1, amended.  Let the alert's fingerprint be mapped to an existing
    record, stored under its id, whose [updated_at] reads as the instant
    [last_updated].
    - Within the dedupe window ([now - last_updated <= _dedupe_window]),
      with [n] the occurrence count so far, [upsert_alert] merges: it
      returns that record with the same id, [occurrences] set to [n + 1],
      [message] and [last_message] taken from the alert, [updated_at]
      stamped with the clock, everything else kept; no record is added
      and the index and the sequence stay.
    - Beyond the window it does not merge: it stores and returns a fresh
      record built by the creation code (under the alert's own id, or the
      next sequential id when the alert has none) and points the
      fingerprint at it. *)
Theorem upsert_repeat_fingerprint (s : t) (now : Z) (alert : Alert)
    (existing : Alert) (last_updated : Z) :
  _fingerprint_index s !! fingerprint alert = Some (id existing) ->
  id existing <> "" ->
  _alerts s !! id existing = Some existing ->
  PyTime.fromisoformat (updated_at existing) = Some last_updated ->
  (forall n,
     now - last_updated <= _dedupe_window s ->
     py_int (default (PInt 1) (meta_or_empty (meta existing) !! "occurrences"))
     = Ok n ->
     exists s' r m,
       upsert_alert s now alert = (s', Ok r)
       /\ id r = id existing
       /\ message r = message alert
       /\ updated_at r = PyTime.isoformat now
       /\ meta r = Some m
       /\ m !! "occurrences" = Some (PInt (n + 1))
       /\ m !! "last_message" = Some (PStr (message alert))
       /\ (forall k, k <> "occurrences" -> k <> "last_message" ->
             m !! k = meta_or_empty (meta existing) !! k)
       /\ (type r, severity r, status r, title r, source r, created_at r,
           fingerprint r, entity r, explanation r)
          = (type existing, severity existing, status existing,
             title existing, source existing, created_at existing,
             fingerprint existing, entity existing, explanation existing)
       /\ _alerts s' !! id existing = Some r
       /\ dom (_alerts s') = dom (_alerts s)
       /\ (forall other, other <> id existing ->
             _alerts s' !! other = _alerts s !! other)
       /\ _fingerprint_index s' = _fingerprint_index s
       /\ _sequence s' = _sequence s)
  /\ (_dedupe_window s < now - last_updated ->
      exists s' r,
        upsert_alert s now alert = (s', Ok r)
        /\ (s', r) = create s now alert
        /\ id r = (if str_truthy (id alert) then id alert
                   else format_id (S (_sequence s)))
        /\ (meta_or_empty (meta r)) !! "occurrences"
           = Some (default (PInt 1)
                     (meta_or_empty (meta alert) !! "occurrences"))
        /\ _alerts s' = <[id r := r]> (_alerts s)
        /\ _fingerprint_index s'
           = <[fingerprint alert := id r]> (_fingerprint_index s)).
Proof.
  intros Hfp Hne Ha Hparse.
  pose proof (find_existing_Some _ _ _ _ Hfp Hne Ha) as Hfind.
  split.
  - intros n Hwin Hocc.
    destruct (merged_meta existing alert now n) as (m & Hm & Ho & Hl & Hk).
    exists (set_alerts s (<[id existing := merged existing alert now n]> (_alerts s))),
      (merged existing alert now n), m.
    split.
    { unfold upsert_alert. rewrite Hfind, Hparse.
      destruct (Z.leb_spec (now - last_updated) (_dedupe_window s)); [|lia].
      by rewrite Hocc. }
    repeat match goal with |- _ /\ _ => split end;
      try reflexivity; try assumption; simpl.
    + apply lookup_insert_eq.
    + apply dom_insert_lookup_L. eauto.
    + intros other Hother. by apply lookup_insert_ne.
  - intros Hwin.
    exists (create s now alert).1, (create s now alert).2.
    split.
    { unfold upsert_alert. rewrite Hfind, Hparse.
      destruct (Z.leb_spec (now - last_updated) (_dedupe_window s)); [lia|].
      by destruct (create s now alert). }
    split; [by destruct (create s now alert)|].
    split; [apply create_id|].
    split.
    { unfold create. destruct (str_truthy (id alert)); simpl;
        rewrite lookup_union; rewrite lookup_singleton_eq;
        by destruct (meta_or_empty (meta alert) !! "occurrences"). }
    split; [apply create_alerts | apply create_index].
Qed.

(** The test's scenario: five minutes after the first upsert the record
    is merged and counts two occurrences. *)
Lemma upsert_repeat_fingerprint_witness :
  exists s' r m,
    upsert_alert after_first (noon + PyTime.minutes 5) cpu_alert = (s', Ok r)
    /\ id r = "alert-000001"
    /\ meta r = Some m
    /\ m !! "occurrences" = Some (PInt 2).
Proof.
  assert (Hex : exists existing,
             _alerts after_first !! "alert-000001" = Some existing
             /\ id existing = "alert-000001"
             /\ updated_at existing = PyTime.isoformat noon
             /\ meta_or_empty (meta existing) !! "occurrences" = Some (PInt 1)).
  { eexists. split; [vm_compute; reflexivity|].
    repeat split; vm_compute; reflexivity. }
  destruct Hex as (existing & Ha & Hid & Hup & Hocc).
  destruct (upsert_repeat_fingerprint after_first (noon + PyTime.minutes 5)
              cpu_alert existing noon) as [Hmerge _].
  - rewrite Hid. vm_compute. reflexivity.
  - rewrite Hid. discriminate.
  - rewrite Hid. exact Ha.
  - rewrite Hup. vm_compute. reflexivity.
  - destruct (Hmerge 1) as (s' & r & m & Hrun & Hrid & _ & _ & Hm & Ho & _).
    + vm_compute. discriminate.
    + rewrite Hocc. reflexivity.
    + exists s', r, m. rewrite Hid in Hrid. auto.
Defined.

(** *** The store invariant *)

Lemma alert_id_inj n m : format_id n = format_id m -> n = m.
Proof.
  unfold format_id. intros H. apply (PyTimeFacts.pad_dec_inj 6).
  by simplify_eq/=.
Qed.

Lemma invariant_init window :
  index_sound (init window) /\ keyed_by_id (init window).
Proof. split; intros ? ? H; simpl in H; by rewrite lookup_empty in H. Qed.

Lemma invariant_insert s k a index' sequence' :
  index_sound s -> keyed_by_id s -> id a = k ->
  (forall fp i, index' !! fp = Some i ->
     i = k \/ _fingerprint_index s !! fp = Some i) ->
  let s' := mkStore (<[k := a]> (_alerts s)) index' (_dedupe_window s) sequence' in
  index_sound s' /\ keyed_by_id s'.
Proof.
  intros Hsound Hkeyed Hid Hindex s'. split.
  - intros fp i Hfp. simpl in *.
    destruct (decide (i = k)) as [->|Hne].
    + rewrite lookup_insert_eq. eauto.
    + rewrite lookup_insert_ne by done.
      destruct (Hindex _ _ Hfp) as [?|Hold]; [done|]. by eapply Hsound.
  - intros k' a' Hk'. simpl in *.
    destruct (decide (k' = k)) as [->|Hne].
    + rewrite lookup_insert_eq in Hk'. congruence.
    + rewrite lookup_insert_ne in Hk' by done. by apply Hkeyed.
Qed.

Lemma invariant_run s o :
  index_sound s /\ keyed_by_id s ->
  index_sound (run s o) /\ keyed_by_id (run s o).
Proof.
  intros [Hsound Hkeyed].
  destruct o as [now alert|now alert_id actor|now alert_id actor|]; simpl.
  - destruct (upsert_alert_outcome s now alert)
      as [|existing_id existing n Ha|]; [done|..].
    + apply (invariant_insert s); auto.
    + pose proof (create_alerts s now alert) as Hal.
      pose proof (create_index s now alert) as Hix.
      pose proof (create_window s now alert) as Hw.
      destruct (create s now alert) as [s' model]. simpl in *.
      destruct s' as [al ix w sq]. simpl in *. subst al ix w.
      apply (invariant_insert s); auto.
      intros fp i Hfp.
      destruct (decide (fp = fingerprint alert)) as [->|Hne].
      * rewrite lookup_insert_eq in Hfp. left. congruence.
      * rewrite lookup_insert_ne in Hfp by done. by right.
  - unfold acknowledge.
    destruct (_alerts s !! alert_id) as [alert|] eqn:Ha; [|done].
    apply (invariant_insert s); auto. simpl. by apply Hkeyed.
  - unfold resolve.
    destruct (_alerts s !! alert_id) as [alert|] eqn:Ha; [|done].
    apply (invariant_insert s); auto. simpl. by apply Hkeyed.
  - split; intros ? ? H; simpl in H; by rewrite lookup_empty in H.
Qed.

Lemma sequence_run s o : (_sequence s <= _sequence (run s o))%nat.
Proof.
  destruct o as [now alert|now alert_id actor|now alert_id actor|]; simpl.
  - destruct (upsert_alert_outcome s now alert); simpl; [lia..|].
    rewrite create_sequence. destruct (str_truthy (id alert)); lia.
  - unfold acknowledge. by destruct (_alerts s !! alert_id).
  - unfold resolve. by destruct (_alerts s !! alert_id).
  - lia.
Qed.

Lemma after_second_orphan : orphan (after_second 11) "alert-000001".
Proof.
  split; [vm_compute; eauto|].
  intros fp.
  assert (Hix : _fingerprint_index (after_second 11)
                = {[fingerprint cpu_alert := "alert-000002"]})
    by (vm_compute; reflexivity).
  rewrite Hix. intros H.
  apply lookup_singleton_Some in H as [_ H]. discriminate.
Qed.

(** C10. In every store reachable from the empty one by any calls of
    [upsert_alert], [acknowledge], [resolve] and [clear_all]: each id in
    the fingerprint index is the id of a stored alert, each alert is stored
    under its own id, so two alerts stored in different places have
    different ids.  The ids the store assigns are [alert-%06d] of a counter
    that each assignment increases by one, that no call decreases, and
    whose texts are distinct for distinct numbers.  The converse of the
    first part fails: after the same alert is upserted twice, eleven
    minutes apart, "alert-000001" is stored and no fingerprint points to
    it. *)
Theorem store_invariant :
  (forall window s, reachable window s ->
     index_sound s
     /\ keyed_by_id s
     /\ forall k1 k2 a1 a2,
          _alerts s !! k1 = Some a1 -> _alerts s !! k2 = Some a2 ->
          k1 <> k2 -> id a1 <> id a2)
  /\ (forall s,
        _sequence (_new_id s).1 = S (_sequence s)
        /\ (_new_id s).2 = format_id (S (_sequence s)))
  /\ (forall n m, n <> m -> format_id n <> format_id m)
  /\ (forall s o, (_sequence s <= _sequence (run s o))%nat)
  /\ (reachable 10 (after_second 11)
      /\ orphan (after_second 11) "alert-000001").
Proof.
  split; [|split; [|split; [|split; [|split]]]].
  - intros window s Hreach.
    assert (Hinv : index_sound s /\ keyed_by_id s).
    { induction Hreach; [apply invariant_init | by apply invariant_run]. }
    destruct Hinv as [Hsound Hkeyed]. repeat split; [done..|].
    intros k1 k2 a1 a2 H1 H2 Hne Hid.
    apply Hkeyed in H1, H2. congruence.
  - done.
  - intros n m Hne H. by apply Hne, alert_id_inj.
  - apply sequence_run.
  - unfold after_second. do 2 apply reach_step. apply reach_init.
  - apply after_second_orphan.
Qed.

(** The invariant at the store of the dedupe test, after the repeat. *)
Lemma store_invariant_witness :
  index_sound (after_second 5) /\ keyed_by_id (after_second 5).
Proof.
  destruct store_invariant as [Hinv _].
  destruct (Hinv 10 (after_second 5)) as (Hs & Hk & _).
  - unfold after_second. do 2 apply reach_step. apply reach_init.
  - split; assumption.
Defined.

End AlertStoreFacts.

(** ** The alert fingerprint *)

Module AlertEngineFacts.
Import AlertEngine.

Section Fingerprint.
Context {V : Type} (show : V -> string).
Implicit Types entity : list (string * V).

Lemma dict_get_elem_of entity k v :
  NoDup (entity.*1) -> (k, v) ∈ entity -> dict_get entity k = Some v.
Proof.
  induction entity as [|[k' v'] entity IH]; intros Hnd Hin.
  - by apply elem_of_nil in Hin.
  - simpl in *. apply NoDup_cons in Hnd as [Hk' Hnd].
    apply elem_of_cons in Hin as [Heq|Hin].
    + injection Heq as -> ->. by rewrite String.eqb_refl.
    + destruct (String.eqb_spec k' k) as [->|Hne]; [|by apply IH].
      exfalso. apply Hk'. apply list_elem_of_fmap. by exists (k, v).
Qed.

Lemma dict_get_None entity k : k ∉ entity.*1 -> dict_get entity k = None.
Proof.
  induction entity as [|[k' v'] entity IH]; intros Hk; [done|].
  simpl in *. apply not_elem_of_cons in Hk as [Hne Hk].
  destruct (String.eqb_spec k' k) as [->|_]; [done | by apply IH].
Qed.

Lemma dict_get_Some_elem_of entity k v :
  dict_get entity k = Some v -> (k, v) ∈ entity.
Proof.
  induction entity as [|[k' v'] entity IH]; [done|].
  simpl. destruct (String.eqb_spec k' k) as [->|_].
  - intros [= ->]. apply list_elem_of_here.
  - intros H. apply list_elem_of_further. by apply IH.
Qed.

Lemma dict_get_Permutation entity1 entity2 k :
  NoDup (entity1.*1) -> entity1 ≡ₚ entity2 ->
  dict_get entity1 k = dict_get entity2 k.
Proof.
  intros Hnd Hperm.
  assert (Hnd2 : NoDup (entity2.*1)) by (by rewrite <- Hperm).
  destruct (dict_get entity1 k) as [v|] eqn:H1.
  - symmetry. apply dict_get_elem_of; [done|]. rewrite <- Hperm.
    by apply dict_get_Some_elem_of.
  - symmetry. apply dict_get_None. rewrite <- Hperm.
    intros Hin. apply list_elem_of_fmap in Hin as ([k' v] & Hk & Hin).
    simpl in Hk. subst k'.
    by rewrite (dict_get_elem_of _ _ _ Hnd Hin) in H1.
Qed.

Lemma sorted_keys_Permutation entity1 entity2 :
  entity1 ≡ₚ entity2 -> sorted_keys entity1 = sorted_keys entity2.
Proof.
  intros Hperm. unfold sorted_keys.
  apply (Sorted_unique String.le).
  - apply Sorted_merge_sort, _.
  - apply Sorted_merge_sort, _.
  - by rewrite !merge_sort_Permutation, Hperm.
Qed.

(** C9. The fingerprint does not depend on the order in which the entity
    dictionary was filled: two dictionaries (lists of items with distinct
    keys) holding the same key-value pairs give the same fingerprint, for
    every alert type and mode. *)
Theorem fingerprint_order_independent (alert_type mode : string) entity1 entity2 :
  NoDup (entity1.*1) ->
  entity1 ≡ₚ entity2 ->
  _fingerprint show alert_type entity1 mode
  = _fingerprint show alert_type entity2 mode.
Proof.
  intros Hnd Hperm. unfold _fingerprint.
  destruct entity1 as [|item1 rest1].
  { apply Permutation_nil_l in Hperm. by subst. }
  destruct entity2 as [|item2 rest2].
  { by apply Permutation_nil_r in Hperm. }
  rewrite (sorted_keys_Permutation _ _ Hperm).
  assert (Hlabels : label show (item1 :: rest1) <$> sorted_keys (item2 :: rest2)
                    = label show (item2 :: rest2) <$> sorted_keys (item2 :: rest2)).
  { apply list_fmap_ext. intros _ k _. unfold label.
    by rewrite (dict_get_Permutation _ _ k Hnd Hperm). }
  by rewrite Hlabels.
Qed.

End Fingerprint.

(** The instance of the specification:
    [fingerprint(type, {a:1,b:2}, mode) == fingerprint(type, {b:2,a:1}, mode)]. *)
Lemma fingerprint_order_independent_witness :
  _fingerprint show_int "cpu_spike" [("a", 1); ("b", 2)] "demo"
  = _fingerprint show_int "cpu_spike" [("b", 2); ("a", 1)] "demo"
  /\ _fingerprint show_int "cpu_spike" [("b", 2); ("a", 1)] "demo"
     = "cpu_spike|a=1|b=2|mode=demo".
Proof.
  split; [|vm_compute; reflexivity].
  apply (fingerprint_order_independent show_int).
  - apply (bool_decide_unpack _). vm_compute. exact I.
  - apply perm_swap.
Defined.

End AlertEngineFacts.

(** ** The audit log *)

Module AuditStoreFacts.
Import AuditStore.

(** *** Sorting *)

Lemma ltb_le a b : String.ltb a b = true -> String.le a b.
Proof.
  unfold String.le, String.leb, String.ltb.
  by destruct (String.compare a b).
Qed.

Lemma not_ltb_le a b : String.ltb a b = false -> String.le b a.
Proof.
  unfold String.le, String.leb, String.ltb.
  rewrite (String.compare_antisym b a).
  by destruct (String.compare a b).
Qed.

Lemma insert_desc_Permutation x l : insert_desc x l ≡ₚ x :: l.
Proof.
  induction l as [|y l IH]; [done|]. simpl.
  destruct (String.ltb (ts x) (ts y)); [|done].
  rewrite IH. apply perm_swap.
Qed.

Lemma sort_newest_first_Permutation l : sort_newest_first l ≡ₚ l.
Proof.
  induction l as [|x l IH]; [done|]. simpl.
  by rewrite insert_desc_Permutation, IH.
Qed.

Lemma insert_desc_HdRel y x l :
  newer_eq y x -> HdRel newer_eq y l -> HdRel newer_eq y (insert_desc x l).
Proof.
  intros Hyx Hyl. destruct l as [|z l]; simpl; [by constructor|].
  destruct (String.ltb (ts x) (ts z)); constructor; [|done].
  by inversion Hyl.
Qed.

Lemma insert_desc_Sorted x l :
  Sorted newer_eq l -> Sorted newer_eq (insert_desc x l).
Proof.
  induction 1 as [|y l Hsorted IH Hhd]; simpl.
  - by repeat constructor.
  - destruct (String.ltb (ts x) (ts y)) eqn:Hlt.
    + constructor; [done|]. apply insert_desc_HdRel; [|done].
      by apply ltb_le.
    + constructor; [by constructor|]. constructor. by apply not_ltb_le.
Qed.

Lemma sort_newest_first_Sorted l : Sorted newer_eq (sort_newest_first l).
Proof.
  induction l as [|x l IH]; simpl; [constructor | by apply insert_desc_Sorted].
Qed.

Section Slices.
Context {A : Type} (R : relation A).

Lemma Sorted_drop n l : Sorted R l -> Sorted R (drop n l).
Proof.
  revert l. induction n as [|n IH]; intros l Hl; [done|].
  destruct l as [|x l]; [done|]. simpl. apply IH. by inversion Hl.
Qed.

Lemma HdRel_take x n l : HdRel R x l -> HdRel R x (take n l).
Proof. intros H. destruct n, l; simpl; try constructor. by inversion H. Qed.

Lemma Sorted_take n l : Sorted R l -> Sorted R (take n l).
Proof.
  revert n. induction l as [|x l IH]; intros n Hl.
  - by destruct n.
  - destruct n as [|n]; simpl; [constructor|].
    inversion Hl; subst. constructor; [by apply IH | by apply HdRel_take].
Qed.
End Slices.

(** *** The page and the cursor *)

Lemma page_sublist visible limit cursor :
  (paginate visible limit cursor).1 `sublist_of` visible.
Proof.
  simpl. etrans; [apply sublist_take | apply sublist_drop].
Qed.

Lemma safe_limit_pos limit : (1 <= safe_limit limit)%nat.
Proof. unfold safe_limit. lia. Qed.

Lemma start_after_lookup visible j event :
  NoDup (id <$> visible) -> visible !! j = Some event ->
  start_after (id event) visible = Some (S j).
Proof.
  revert j. induction visible as [|x visible IH]; intros j Hnd Hj; [done|].
  simpl in Hnd. apply NoDup_cons in Hnd as [Hx Hnd].
  destruct j as [|j]; simpl in *.
  - injection Hj as ->. by rewrite String.eqb_refl.
  - destruct (String.eqb_spec (id x) (id event)) as [Heq|_].
    + exfalso. apply Hx. rewrite Heq. apply list_elem_of_fmap.
      exists event. split; [done|]. by eapply list_elem_of_lookup_2.
    + by rewrite (IH j Hnd Hj).
Qed.

Lemma paginate_next visible limit cursor c :
  ids_wellformed visible ->
  (paginate visible limit cursor).2 = Some c ->
  start_index (Some c) visible
  = (start_index cursor visible + safe_limit limit)%nat.
Proof.
  intros [Hnd Hne]. simpl.
  set (start := start_index cursor visible).
  set (L := safe_limit limit).
  pose proof (safe_limit_pos limit) as HL. fold L in HL.
  destruct (Nat.ltb_spec (start + L) (length visible)) as [Hlt|]; [|done].
  rewrite last_lookup, length_take, length_drop.
  replace (Init.Nat.pred (L `min` (length visible - start))) with (L - 1)%nat by lia.
  rewrite lookup_take_lt by lia. rewrite lookup_drop.
  destruct (visible !! (start + (L - 1))%nat) as [event|] eqn:Hev; [|done].
  simpl. intros [= <-].
  assert (Hid : id event <> "").
  { eapply (proj1 (Forall_forall _ _) Hne). by eapply list_elem_of_lookup_2. }
  unfold start_index. destruct (id event) eqn:Hide; [done|]. simpl.
  rewrite <- Hide. rewrite (start_after_lookup _ _ _ Hnd Hev). simpl. lia.
Qed.

Lemma ids_wellformed_sublist l1 l2 :
  l1 `sublist_of` l2 -> ids_wellformed l2 -> ids_wellformed l1.
Proof.
  intros Hsub [Hnd Hne]. split.
  - apply (sublist_NoDup (id <$> l1) (id <$> l2)); [done | by apply fmap_sublist].
  - eapply Forall_forall. intros x Hx.
    eapply (proj1 (Forall_forall _ _) Hne).
    by eapply elem_of_sublist.
Qed.

Lemma ids_wellformed_Permutation l1 l2 :
  l1 ≡ₚ l2 -> ids_wellformed l2 -> ids_wellformed l1.
Proof. intros Hperm [Hnd Hne]. split; by rewrite Hperm. Qed.

Lemma ids_wellformed_visible s actor :
  ids_wellformed (_events s) ->
  ids_wellformed (sort_newest_first (visible_to actor (_events s))).
Proof.
  intros Hwf.
  eapply ids_wellformed_Permutation; [apply sort_newest_first_Permutation|].
  unfold visible_to. destruct (String.eqb _ _); [done|].
  eapply ids_wellformed_sublist; [|done]. apply sublist_filter.
Qed.

(** The pages of one walk, put end to end, are one stretch of the sorted
    visible events. *)
Lemma pages_stretch s actor limits cursor :
  ids_wellformed (_events s) ->
  exists k,
    concat (pages s actor limits cursor)
    = take k (drop (start_index cursor
                      (sort_newest_first (visible_to actor (_events s))))
                (sort_newest_first (visible_to actor (_events s)))).
Proof.
  intros Hwf%(ids_wellformed_visible s actor).
  set (visible := sort_newest_first (visible_to actor (_events s))) in *.
  revert cursor. induction limits as [|limit rest IH]; intros cursor.
  { by exists 0%nat. }
  cbn [pages]. unfold list_events. fold visible.
  destruct (paginate visible limit cursor) as [page next] eqn:Hpage.
  assert (Hp : page = take (safe_limit limit)
                        (drop (start_index cursor visible) visible))
    by (by injection Hpage as <- _).
  destruct next as [c|].
  - destruct (IH (Some c)) as [k Hk].
    exists (safe_limit limit + k)%nat.
    cbn [concat]. rewrite Hk.
    rewrite (paginate_next visible limit cursor c Hwf) by (by rewrite Hpage).
    rewrite Hp, <- take_take_drop. by rewrite drop_drop.
  - exists (safe_limit limit). cbn [concat]. by rewrite app_nil_r.
Qed.

Lemma append_events s event :
  exists k new_id,
    _events (append s event).1
    = drop k (_events s ++ [mkEvent new_id (ts event) (actor_email event)
                              (actor_role event) (action event)
                              (target_id event) (metadata event)])
    /\ new_id = (if str_truthy (id event) then id event
                 else format_id (S (_sequence s)))
    /\ _sequence (append s event).1
       = (if str_truthy (id event) then _sequence s else S (_sequence s)).
Proof.
  unfold append. destruct (str_truthy (id event)); simpl.
  - destruct (_ <? _); [eexists _, _ | exists 0%nat; eexists]; eauto.
  - destruct (_ <? _); [eexists _, _ | exists 0%nat; eexists]; eauto.
Qed.

Lemma audit_id_inj n m : format_id n = format_id m -> n = m.
Proof.
  unfold format_id. intros H. apply (PyTimeFacts.pad_dec_inj 8).
  by simplify_eq/=.
Qed.

(** The ids the store assigns are distinct and not empty. *)
Lemma store_assigned_ids max_size s :
  store_assigned max_size s -> ids_wellformed (_events s).
Proof.
  intros Hs.
  assert (Hinv : ids_wellformed (_events s)
                 /\ Forall (fun event => exists n,
                              (n <= _sequence s)%nat /\ id event = format_id n)
                      (_events s)).
  { induction Hs as [|s event Hs [[Hnd Hne] Hseq] Hid].
    - repeat split; simpl; constructor.
    - destruct (append_events s event) as (k & new_id & -> & Hnew & ->).
      rewrite Hid in *. simpl in *. subst new_id.
      set (payload := mkEvent _ _ _ _ _ _ _).
      assert (Hall : ids_wellformed (_events s ++ [payload])
                     /\ Forall (fun event => exists n,
                                  (n <= S (_sequence s))%nat
                                  /\ id event = format_id n)
                          (_events s ++ [payload])).
      { repeat split.
        - rewrite fmap_app. apply NoDup_app. split; [done|]. split.
          + intros i Hi [->|[]%elem_of_nil]%elem_of_cons.
            apply list_elem_of_fmap in Hi as (e & He & Hin).
            apply (proj1 (Forall_forall _ _) Hseq) in Hin as (n & Hn & Hen).
            simpl in He. rewrite Hen in He. apply audit_id_inj in He. lia.
          + simpl. apply NoDup_singleton.
        - apply Forall_app. split; [done|]. by repeat constructor.
        - apply Forall_app. split.
          + eapply Forall_impl; [exact Hseq|].
            intros e (n & Hn & Hen). exists n. split; [lia | done].
          + repeat constructor. exists (S (_sequence s)). by split. }
      destruct Hall as [Hwf Hbound]. split.
      + eapply ids_wellformed_sublist; [apply sublist_drop | done].
      + by apply Forall_drop. }
  apply Hinv.
Qed.

(** *** Listing *)

(** C8 as stated fails on the paging part.  [append] keeps an id the caller
    supplies, so a log can hold two events with the same id; the cursor is
    that id, and the walk restarts after its first occurrence.  In
    [duplicated], walked one event at a time, the second event comes back on
    the third call. *)
Lemma paging_repeats_on_duplicate_id :
  pages duplicated ops [1; 1; 1] None
  = [[ops_event "evt" "2026-02-17T12:03:00"];
     [ops_event "evt" "2026-02-17T12:02:00"];
     [ops_event "evt" "2026-02-17T12:02:00"]]
  /\ ~ NoDup (concat (pages duplicated ops [1; 1; 1] None)).
Proof.
  assert (H : pages duplicated ops [1; 1; 1] None
              = [[ops_event "evt" "2026-02-17T12:03:00"];
                 [ops_event "evt" "2026-02-17T12:02:00"];
                 [ops_event "evt" "2026-02-17T12:02:00"]])
    by (vm_compute; reflexivity).
  split; [exact H|]. rewrite H. simpl. intros Hnd.
  apply NoDup_cons in Hnd as [_ Hnd]. apply NoDup_cons in Hnd as [Hnot _].
  apply Hnot, list_elem_of_here.
Qed.

Lemma visible_to_operator actor events :
  role actor <> "admin" -> visible_to actor events = own actor events.
Proof.
  intros Hrole. unfold visible_to.
  by destruct (String.eqb_spec (role actor) "admin").
Qed.

(** C8, amended.  For every log, actor, limit and cursor:
    - when the actor's role is not "admin", every event of the page has the
      actor's own email, and two logs with the same events of that actor
      give the same listing (events of others, added or removed, do not
      show);
    - when the role is "admin" every event is visible, and a page long
      enough holds them all;
    - the page is sorted newest first by [ts];
    - when the ids in the log are distinct and not empty (as the ids the
      store assigns are, [store_assigned_ids]), the pages obtained by
      passing each returned [next_cursor] to the next call never hold an
      event twice. *)
Theorem list_events_scoped_sorted_paged (s : t) (actor : Actor) :
  (role actor <> "admin" ->
     (forall limit cursor event,
        event ∈ (list_events s actor limit cursor).1 ->
        actor_email event = email actor)
     /\ (forall s' limit cursor,
           own actor (_events s') = own actor (_events s) ->
           list_events s' actor limit cursor = list_events s actor limit cursor))
  /\ (role actor = "admin" ->
        visible_to actor (_events s) = _events s
        /\ forall limit,
             (length (_events s) <= safe_limit limit)%nat ->
             (list_events s actor limit None).1 ≡ₚ _events s)
  /\ (forall limit cursor, Sorted newer_eq (list_events s actor limit cursor).1)
  /\ (ids_wellformed (_events s) ->
      forall limits cursor,
        NoDup (concat (pages s actor limits cursor))
        /\ NoDup (id <$> concat (pages s actor limits cursor))).
Proof.
  split; [|split; [|split]].
  - intros Hrole. split.
    + intros limit cursor event Hin. unfold list_events in Hin.
      eapply elem_of_sublist in Hin; [|apply page_sublist].
      rewrite sort_newest_first_Permutation, visible_to_operator in Hin by done.
      by apply list_elem_of_filter in Hin as [Hown _].
    + intros s' limit cursor Hown. unfold list_events.
      by rewrite !visible_to_operator, Hown.
  - intros Hrole.
    assert (Hvis : visible_to actor (_events s) = _events s)
      by (unfold visible_to; by rewrite Hrole).
    split; [done|]. intros limit Hlen.
    unfold list_events, paginate. rewrite Hvis. simpl.
    rewrite take_ge.
    + apply sort_newest_first_Permutation.
    + by rewrite sort_newest_first_Permutation.
  - intros limit cursor. unfold list_events, paginate. simpl.
    apply Sorted_take, Sorted_drop, sort_newest_first_Sorted.
  - intros Hwf limits cursor.
    destruct (pages_stretch s actor limits cursor Hwf) as [k ->].
    destruct (ids_wellformed_visible s actor Hwf) as [Hnd _].
    assert (Hids : NoDup (id <$> take k
                     (drop (start_index cursor
                              (sort_newest_first (visible_to actor (_events s))))
                        (sort_newest_first (visible_to actor (_events s)))))).
    { eapply sublist_NoDup; [exact Hnd|]. apply fmap_sublist.
      etrans; [apply sublist_take | apply sublist_drop]. }
    split; [by eapply NoDup_fmap_1 | done].
Qed.

(** The operator of the test walks [scoped_log] two events at a time: he
    sees his own three events, each once. *)
Lemma list_events_scoped_sorted_paged_witness :
  NoDup (concat (pages scoped_log ops [2; 2] None))
  /\ (forall event,
        event ∈ (list_events scoped_log ops 2 None).1 ->
        actor_email event = "ops@example.com")
  /\ length (concat (pages scoped_log ops [2; 2] None)) = 3%nat.
Proof.
  destruct (list_events_scoped_sorted_paged scoped_log ops)
    as (Hscope & _ & _ & Hpaged).
  split; [|split].
  - apply Hpaged. apply (store_assigned_ids 10).
    unfold scoped_log. repeat (apply assigned_append; [|reflexivity]).
    apply assigned_init.
  - apply Hscope. discriminate.
  - vm_compute. reflexivity.
Defined.

End AuditStoreFacts.

(** ** Comparisons and rounding on the finite floats *)

Module NumFacts.
Import Num.
Local Open Scope Q_scope.

Lemma gtb_decide a b : gtb a b = bool_decide (b < a).
Proof.
  unfold gtb. destruct (Qle_bool a b) eqn:H; symmetry.
  - apply bool_decide_eq_false. apply Qle_bool_iff in H. by apply Qle_not_lt.
  - apply bool_decide_eq_true. apply Qnot_le_lt. intros Hle.
    apply Qle_bool_iff in Hle. congruence.
Qed.

Lemma ltb_decide a b : ltb a b = bool_decide (a < b).
Proof. apply gtb_decide. Qed.

Lemma geb_decide a b : geb a b = bool_decide (b <= a).
Proof.
  unfold geb. destruct (Qle_bool b a) eqn:H; symmetry.
  - apply bool_decide_eq_true. by apply Qle_bool_iff.
  - apply bool_decide_eq_false. intros Hle. apply Qle_bool_iff in Hle. congruence.
Qed.

(** Case analysis on every comparison of the goal, closed by linear
    arithmetic. *)
Ltac cmp_cases :=
  unfold _clamp, py_max, py_min, py_abs;
  rewrite ?gtb_decide, ?ltb_decide, ?geb_decide;
  repeat case_bool_decide;
  repeat match goal with
    | H : ~ (_ < _) |- _ => apply Qnot_lt_le in H
    | H : ~ (_ <= _) |- _ => apply Qnot_le_lt in H
    end;
  try lra.


(** A clamp is monotone in the value. *)
Lemma _clamp_mono v1 v2 low high :
  low <= high -> v1 <= v2 -> _clamp v1 low high <= _clamp v2 low high.
Proof. intros. cmp_cases. Qed.

(** A value inside the interval is left alone. *)
Lemma _clamp_inside value low high :
  low <= value <= high -> _clamp value low high == value.
Proof. intros. cmp_cases. Qed.


Lemma py_max_bounds lo hi a b : lo <= a <= hi -> lo <= b <= hi -> lo <= py_max a b <= hi.
Proof. intros. cmp_cases. Qed.

Lemma py_min_bounds lo hi a b : lo <= a <= hi -> lo <= b <= hi -> lo <= py_min a b <= hi.
Proof. intros. cmp_cases. Qed.

(** *** Sums *)

Lemma fold_left_Qplus l acc : fold_left Qplus l acc == acc + sum l.
Proof.
  unfold sum. revert acc. induction l as [|x l IH]; intros acc; simpl.
  - lra.
  - rewrite (IH (acc + x)), (IH (0 + x)). lra.
Qed.

Lemma sum_cons x l : sum (x :: l) == x + sum l.
Proof. unfold sum at 1. simpl. rewrite fold_left_Qplus. lra. Qed.

Section Sums.
Context {A : Type}.
Implicit Types (f g : A -> Q) (l : list A).


Lemma sum_plus f g l :
  sum ((fun p => f p + g p) <$> l) == sum (f <$> l) + sum (g <$> l).
Proof.
  induction l as [|p l IH]; [reflexivity|].
  rewrite !fmap_cons, !sum_cons, IH. lra.
Qed.

Lemma sum_scale c f l : sum ((fun p => c * f p) <$> l) == c * sum (f <$> l).
Proof.
  induction l as [|p l IH]; [unfold sum; simpl; lra|].
  rewrite !fmap_cons, !sum_cons, IH. lra.
Qed.



End Sums.



(** *** Rounding *)









End NumFacts.

(** ** Anomaly detection *)

Module AnomalyFacts.
Import Num NumFacts Anomaly.
Local Open Scope Q_scope.

(** The three rules as propositions over the current point and history. *)
Section Rules.
Variables (current : FeatureVector) (history : list FeatureVector).



End Rules.


End AnomalyFacts.

(** ** Recommendations *)

Module RecommendFacts.
Import Num NumFacts Recommend.
Local Open Scope Q_scope.

Lemma _contains_false anomalies anomaly_type :
  (forall a, a ∈ anomalies -> Anomaly.type a <> anomaly_type) ->
  _contains anomalies anomaly_type = false.
Proof.
  intros H. unfold _contains. apply not_true_is_false. intros Hex.
  apply existsb_exists in Hex as (a & Hin & Heq).
  apply String.eqb_eq in Heq. apply (H a); [|done].
  by apply list_elem_of_In.
Qed.

(** C5. [generate_recommendations] never returns an empty list; and when
    there is no [cpu_spike] anomaly, no [memory_pressure] anomaly, the
    forecast risk level is not "high" and the storage usage is at most 85,
    it returns exactly one recommendation, [maintain_baseline] with
    priority low. *)
Theorem recommendations_never_empty (float_str : Q -> string)
    (features : Anomaly.FeatureVector) (anomalies : list Anomaly.AgentAnomaly)
    (forecast : Forecast.ForecastResult) :
  generate_recommendations float_str features anomalies forecast <> []
  /\ ((forall a, a ∈ anomalies -> Anomaly.type a <> "cpu_spike") ->
      (forall a, a ∈ anomalies -> Anomaly.type a <> "memory_pressure") ->
      Forecast.risk_level forecast <> "high" ->
      Anomaly.storage_usage features <= 85 ->
      exists r,
        generate_recommendations float_str features anomalies forecast = [r]
        /\ type r = "maintain_baseline" /\ priority r = "low").
Proof.
  split.
  - unfold generate_recommendations.
    destruct (_contains anomalies "cpu_spike"),
      (_contains anomalies "memory_pressure"),
      (String.eqb (Forecast.risk_level forecast) "high"),
      (gtb (Anomaly.storage_usage features) 85); discriminate.
  - intros Hcpu Hmem Hrisk Hstorage. exists maintain_baseline.
    unfold generate_recommendations.
    rewrite (_contains_false _ _ Hcpu), (_contains_false _ _ Hmem).
    apply String.eqb_neq in Hrisk. rewrite Hrisk.
    rewrite gtb_decide, bool_decide_eq_false_2 by by apply Qle_not_lt.
    done.
Qed.

(** On the quiet cluster the engine answers with the fallback alone. *)
Lemma recommendations_never_empty_witness :
  type <$> generate_recommendations (fun _ => "42.0") quiet [] quiet_forecast
  = ["maintain_baseline"].
Proof.
  destruct (recommendations_never_empty (fun _ => "42.0") quiet [] quiet_forecast)
    as [_ H].
  destruct H as (r & -> & Htype & _).
  - intros a Ha. by apply elem_of_nil in Ha.
  - intros a Ha. by apply elem_of_nil in Ha.
  - discriminate.
  - vm_compute. discriminate.
  - simpl. by rewrite Htype.
Defined.

End RecommendFacts.

(** ** SLA risk *)

Module RiskFacts.
Import Num NumFacts Risk.
Local Open Scope Q_scope.












End RiskFacts.

(** ** Forecast *)

Module ForecastFacts.
Import Num NumFacts Forecast.
Local Open Scope Q_scope.




(** *** The fit is the least-squares fit *)

Section LeastSquares.
Variable values : list Q.










End LeastSquares.




End ForecastFacts.

(** ** Feature extraction *)

Module FeaturesFacts.
Import Num NumFacts Features.
Local Open Scope Q_scope.

Lemma max0_ge0 f : float_ge0 (max0 f).
Proof.
  destruct f as [q| | |]; simpl; try done.
  rewrite gtb_decide. case_bool_decide; simpl; lra.
Qed.

(** When [extract_features] returns, the vector is well formed: the four
    usages are floats that are not negative (and not NaN), the count is not
    negative. *)
Lemma extract_features_nonneg source anomalies_count timestamp now fv :
  extract_features source anomalies_count timestamp now = Ok fv ->
  float_ge0 (cpu_usage fv) /\ float_ge0 (memory_usage fv)
  /\ float_ge0 (storage_usage fv) /\ float_ge0 (network_io fv)
  /\ (0 <= anomaly_count fv)%Z.
Proof.
  unfold extract_features.
  repeat match goal with
    | |- context [mbind _ ?r] => destruct r; simpl; [|discriminate]
    end.
  intros [= <-]. simpl. repeat split; try apply max0_ge0. lia.
Qed.

(** It returns on the empty and on the missing payload, with zeros. *)
Lemma extract_features_default now :
  extract_features None None None now
  = Ok (mkFeatures (Fin 0) (Fin 0) (Fin 0) (Fin 0) 0 now)
  /\ extract_features (Some []) None None now
     = Ok (mkFeatures (Fin 0) (Fin 0) (Fin 0) (Fin 0) 0 now).
Proof. split; reflexivity. Qed.

(** The coercions of [_to_float]: a trailing percent sign is dropped,
    [mbps] leaves the number, [gbps] multiplies by 1000, [kbps] by 0.001,
    and what does not read as a number gives the default. *)
Lemma _to_float_coercions :
  float_eq (_to_float (PStr "85%") (Fin 0)) (Fin 85)
  /\ float_eq (_to_float (PStr "120 Mbps") (Fin 0)) (Fin 120)
  /\ float_eq (_to_float (PStr "1.5gbps") (Fin 0)) (Fin 1500)
  /\ float_eq (_to_float (PStr "12 kbps") (Fin 0)) (Fin 0.012)
  /\ float_eq (_to_float (PStr "1,200") (Fin 0)) (Fin 1200)
  /\ float_eq (_to_float (PStr "n/a") (Fin 0)) (Fin 0)
  /\ float_eq (_to_float (PList []) (Fin 0)) (Fin 0).
Proof. repeat split; vm_compute; reflexivity. Qed.

(** C6 fails on the code: [extract_features] raises on payloads with a
    malformed field.
    - ["active_anomalies": "inf"]: [_to_int] computes [int(float("inf"))],
      which raises [OverflowError]; its handler catches [ValueError] only.
    - ["active_anomalies": nan] (a float): [_to_int] calls [int] outside
      any handler, and [int(nan)] raises [ValueError].
    - ["cluster_metrics": "unavailable"]: the value is truthy and not a
      mapping, so [cluster_metrics.get] raises [AttributeError]. *)
Theorem extract_features_raises (now : Z) :
  extract_features (Some count_is_inf) None None now = Raise OverflowError
  /\ extract_features (Some count_is_nan) None None now = Raise ValueError
  /\ extract_features (Some metrics_not_a_mapping) None None now
     = Raise AttributeError.
Proof. repeat split; vm_compute; reflexivity. Qed.

End FeaturesFacts.

(** ** The audit log: size, ids, pages *)

Module AuditLogFacts.
Import AuditStore AuditLog AuditStoreFacts.

Lemma append_spec s event :
  _events (append s event).1
  = drop (Z.to_nat (Z.of_nat (S (length (_events s))) - _max_size s))
      (_events s ++ [(append s event).2])
  /\ _max_size (append s event).1 = _max_size s.
Proof.
  unfold append.
  destruct (if str_truthy (id event) then (s, id event) else _next_id s)
    as [s1 new_id] eqn:Hs1.
  assert (Hev : _events s1 = _events s /\ _max_size s1 = _max_size s).
  { destruct (str_truthy (id event)); injection Hs1 as <- _; done. }
  destruct Hev as [Hev Hmax]. cbn [fst snd]. rewrite Hev, Hmax.
  rewrite length_app. cbn [length]. rewrite Nat.add_1_r.
  destruct (Z.ltb_spec (_max_size s) (Z.of_nat (S (length (_events s)))));
    cbn [_events _max_size]; split; try done.
  replace (Z.to_nat (Z.of_nat (S (length (_events s))) - _max_size s))
    with 0%nat by lia.
  done.
Qed.

(** X1. The log is a bounded buffer: whatever is appended or cleared, it
    never holds more than [max_size] events; an append drops the oldest
    events to make room and leaves the new event last; with [max_size] 0
    the log stays empty. *)
Theorem audit_log_bounded (max_size : Z) (s : t) :
  0 <= max_size ->
  logged max_size s ->
  Z.of_nat (length (_events s)) <= max_size
  /\ forall event,
       let s' := (append s event).1 in
       let payload := (append s event).2 in
       Z.of_nat (length (_events s')) <= max_size
       /\ (exists dropped, _events s ++ [payload] = dropped ++ _events s')
       /\ (0 < max_size -> last (_events s') = Some payload)
       /\ (Z.of_nat (length (_events s)) < max_size ->
           _events s' = _events s ++ [payload]).
Proof.
  intros Hmax Hlog.
  assert (Hinv : Z.of_nat (length (_events s)) <= max_size
                 /\ _max_size s = max_size).
  { induction Hlog as [|s event _ [IHlen IHmax]|s _ [IHlen IHmax]].
    - simpl. lia.
    - destruct (append_spec s event) as [-> ->]. split; [|done].
      rewrite length_drop, length_app. simpl. lia.
    - simpl. lia. }
  destruct Hinv as [Hlen Hsize]. split; [done|].
  intros event s' payload.
  destruct (append_spec s event) as [Hev _]. fold s' payload in Hev.
  rewrite Hsize in Hev. rewrite Hev.
  set (k := Z.to_nat (Z.of_nat (S (length (_events s))) - max_size)).
  assert (Hk : (k <= 1)%nat) by (unfold k; lia).
  repeat split.
  - rewrite length_drop, length_app. simpl. unfold k. lia.
  - exists (take k (_events s ++ [payload])). by rewrite take_drop.
  - intros Hpos. rewrite last_lookup, length_drop, lookup_drop, length_app.
    simpl. replace (k + Init.Nat.pred (length (_events s) + 1 - k))%nat
      with (length (_events s)) by (unfold k in *; lia).
    by rewrite lookup_app_r, Nat.sub_diag.
  - intros Hroom. by replace k with 0%nat by (unfold k; lia).
Qed.

(** A log of size two that saw three events holds the last two. *)
Lemma audit_log_bounded_witness :
  Z.of_nat (length (_events trimmed_log)) <= 2
  /\ ts <$> _events trimmed_log
     = ["2026-02-17T10:01:00"; "2026-02-17T10:02:00"].
Proof.
  destruct (audit_log_bounded 2 trimmed_log) as [Hlen _].
  - lia.
  - unfold trimmed_log. repeat apply logged_append. apply logged_init.
  - split; [exact Hlen | vm_compute; reflexivity].
Defined.

(** X2. When callers leave the id to the store, the ids in the log are the
    consecutive numbers that end at the store's counter, written
    [audit-%08d], oldest first; so they are distinct, and none is empty. *)
Theorem assigned_ids_consecutive (max_size : Z) (s : t) :
  store_assigned max_size s ->
  (length (_events s) <= _sequence s)%nat
  /\ id <$> _events s
     = format_id <$> seq (S (_sequence s - length (_events s)))
                       (length (_events s))
  /\ NoDup (id <$> _events s)
  /\ Forall (fun event => id event <> "") (_events s).
Proof.
  intros Hs.
  assert (Hinv : (length (_events s) <= _sequence s)%nat
                 /\ id <$> _events s
                    = format_id <$> seq (S (_sequence s - length (_events s)))
                                      (length (_events s))).
  { induction Hs as [|s event _ [IHlen IHids] Hid]; [done|].
    destruct (append_spec s event) as [Hev _].
    destruct (append_events s event) as (_ & new_id & _ & Hnew & Hseq).
    assert (Hpayload : id (append s event).2 = format_id (S (_sequence s))).
    { unfold append. rewrite Hid. reflexivity. }
    rewrite Hid in Hseq. simpl in Hseq. rewrite Hev, Hseq.
    set (k := Z.to_nat (Z.of_nat (S (length (_events s))) - _max_size s)).
    rewrite length_drop, length_app. cbn [length].
    split; [lia|].
    rewrite fmap_drop, fmap_app, IHids. cbn [fmap list_fmap].
    rewrite Hpayload.
    replace ((format_id <$> seq (S (_sequence s - length (_events s)))
                              (length (_events s)))
             ++ [format_id (S (_sequence s))])
      with (format_id <$> seq (S (_sequence s - length (_events s)))
                            (length (_events s) + 1)).
    2: { rewrite seq_app, fmap_app. cbn [seq fmap list_fmap].
         do 3 f_equal. lia. }
    rewrite <- fmap_drop, drop_seq.
    destruct (Nat.le_gt_cases k (length (_events s) + 1)) as [Hk|Hk].
    - do 2 f_equal. lia.
    - by replace (length (_events s) + 1 - k)%nat with 0%nat by lia. }
  destruct Hinv as [Hlen Hids]. split; [done|]. split; [done|]. split.
  - rewrite Hids. apply NoDup_fmap_2; [|apply NoDup_seq].
    intros n m. apply audit_id_inj.
  - apply Forall_forall. intros event Hin Hempty.
    assert (Hi : id event ∈ id <$> _events s)
      by (apply list_elem_of_fmap; eauto).
    rewrite Hids, Hempty in Hi.
    apply list_elem_of_fmap in Hi as (n & Hn & _). discriminate Hn.
Qed.

(** Three appends into a log of two: the ids left are the second and the
    third. *)
Lemma assigned_ids_consecutive_witness :
  id <$> _events trimmed_log = ["audit-00000002"; "audit-00000003"].
Proof.
  destruct (assigned_ids_consecutive 2 trimmed_log) as (_ & Hids & _).
  - unfold trimmed_log. repeat (apply assigned_append; [|reflexivity]).
    apply assigned_init.
  - rewrite Hids. vm_compute. reflexivity.
Defined.

Lemma start_after_None cursor visible :
  (forall event, event ∈ visible -> id event <> cursor) ->
  start_after cursor visible = None.
Proof.
  induction visible as [|x visible IH]; intros H; [done|].
  simpl. destruct (String.eqb_spec (id x) cursor) as [Heq|_].
  - exfalso. apply (H x); [apply list_elem_of_here | done].
  - rewrite IH; [done|]. intros event Hin. apply H.
    by apply list_elem_of_further.
Qed.

(** X3. A page never holds more than the limit, the limit being brought
    into 1..500 first (a limit of 0 or less serves one event, a limit above
    500 serves 500); and a cursor that is empty, or is the id of no visible
    event, starts from the newest event again, like no cursor. *)
Theorem list_events_limit_and_stale_cursor (s : t) (actor : Actor)
    (limit : Z) (cursor : string) :
  (length (list_events s actor limit (Some cursor)).1 <= safe_limit limit)%nat
  /\ (1 <= safe_limit limit <= 500)%nat
  /\ (limit <= 1 -> safe_limit limit = 1%nat)
  /\ (500 <= limit -> safe_limit limit = 500%nat)
  /\ (1 <= limit <= 500 -> Z.of_nat (safe_limit limit) = limit)
  /\ list_events s actor limit (Some "") = list_events s actor limit None
  /\ ((forall event,
         event ∈ visible_to actor (_events s) -> id event <> cursor) ->
      list_events s actor limit (Some cursor) = list_events s actor limit None).
Proof.
  split.
  { unfold list_events, paginate. cbn [fst]. rewrite length_take. lia. }
  split; [unfold safe_limit; lia|].
  split; [unfold safe_limit; lia|].
  split; [unfold safe_limit; lia|].
  split; [unfold safe_limit; lia|].
  split; [reflexivity|].
  intros Hstale. unfold list_events, paginate, start_index.
  destruct (str_truthy cursor); [|done].
  rewrite start_after_None; [done|].
  intros event Hin. apply Hstale.
  by rewrite sort_newest_first_Permutation in Hin.
Qed.

(** A cursor left over from another log is served like no cursor. *)
Lemma list_events_limit_and_stale_cursor_witness :
  list_events trimmed_log ops 0 (Some "audit-00000001")
  = list_events trimmed_log ops 0 None
  /\ length (list_events trimmed_log ops 0 None).1 = 1%nat.
Proof.
  destruct (list_events_limit_and_stale_cursor trimmed_log ops 0
              "audit-00000001") as (_ & _ & _ & _ & _ & _ & Hstale).
  split; [|vm_compute; reflexivity].
  apply Hstale. intros event Hin.
  apply (bool_decide_unpack _). revert event Hin.
  apply Forall_forall. apply (bool_decide_unpack _). vm_compute. exact I.
Defined.

Lemma paginate_None visible limit cursor :
  (paginate visible limit cursor).2 = None ->
  (paginate visible limit cursor).1 = drop (start_index cursor visible) visible.
Proof.
  unfold paginate. cbn [fst snd].
  set (start := start_index cursor visible).
  pose proof (safe_limit_pos limit) as HL.
  destruct (Nat.ltb_spec (start + safe_limit limit) (length visible)) as [Hlt|Hge].
  - rewrite last_lookup, length_take, length_drop.
    replace (Init.Nat.pred (safe_limit limit `min` (length visible - start)))
      with (safe_limit limit - 1)%nat by lia.
    rewrite lookup_take_lt by lia. rewrite lookup_drop.
    destruct (lookup_lt_is_Some_2 visible (start + (safe_limit limit - 1))%nat)
      as [event ->]; [lia | done].
  - intros _. apply take_ge. rewrite length_drop. lia.
Qed.

(** A walk with at least as many calls as events left returns them all. *)
Lemma pages_complete s actor limits cursor :
  ids_wellformed (_events s) ->
  let visible := sort_newest_first (visible_to actor (_events s)) in
  (length visible - start_index cursor visible <= length limits)%nat ->
  concat (pages s actor limits cursor) = drop (start_index cursor visible) visible.
Proof.
  intros Hwf%(ids_wellformed_visible s actor) visible. fold visible in Hwf.
  revert cursor. induction limits as [|limit rest IH]; intros cursor Hlen.
  { simpl in *. symmetry. apply drop_ge. lia. }
  cbn [pages]. unfold list_events. fold visible.
  destruct (paginate visible limit cursor) as [page next] eqn:Hpage.
  pose proof (safe_limit_pos limit) as HL.
  destruct next as [c|].
  - pose proof (paginate_next visible limit cursor c Hwf) as Hnext.
    rewrite Hpage in Hnext. specialize (Hnext eq_refl).
    cbn [concat]. rewrite IH by (rewrite Hnext; simpl in Hlen; lia).
    rewrite Hnext.
    assert (Hp : page = take (safe_limit limit)
                          (drop (start_index cursor visible) visible))
      by (by injection Hpage as <- _).
    rewrite Hp, <- drop_drop. apply take_drop.
  - pose proof (paginate_None visible limit cursor) as Hnone.
    rewrite Hpage in Hnone. cbn [concat]. rewrite app_nil_r. by apply Hnone.
Qed.

(** X4. Paging loses nothing: when the ids in the log are distinct and not
    empty, a client that starts without cursor and follows each returned
    [next_cursor], with at least as many calls as there are visible events,
    receives every visible event exactly once, newest first. *)
Theorem paging_complete (s : t) (actor : Actor) (limits : list Z) :
  ids_wellformed (_events s) ->
  (length (visible_to actor (_events s)) <= length limits)%nat ->
  concat (pages s actor limits None)
  = sort_newest_first (visible_to actor (_events s))
  /\ concat (pages s actor limits None) ≡ₚ visible_to actor (_events s)
  /\ Sorted newer_eq (concat (pages s actor limits None)).
Proof.
  intros Hwf Hlen.
  assert (Hall : concat (pages s actor limits None)
                 = sort_newest_first (visible_to actor (_events s))).
  { rewrite (pages_complete s actor limits None Hwf); [done|].
    simpl. rewrite sort_newest_first_Permutation. lia. }
  rewrite Hall. split; [done|]. split.
  - apply sort_newest_first_Permutation.
  - apply sort_newest_first_Sorted.
Qed.

(** The operator of the test, one event per call: three calls return his
    three events, newest first. *)
Lemma paging_complete_witness :
  action <$> concat (pages scoped_log ops [1; 1; 1] None)
  = ["login"; "login"; "login"]
  /\ ts <$> concat (pages scoped_log ops [1; 1; 1] None)
     = ["2026-02-17T12:02:00"; "2026-02-17T12:01:00"; "2026-02-17T12:00:00"].
Proof.
  destruct (paging_complete scoped_log ops [1; 1; 1]) as (Hall & _ & _).
  - apply (store_assigned_ids 10).
    unfold scoped_log. repeat (apply assigned_append; [|reflexivity]).
    apply assigned_init.
  - vm_compute. lia.
  - rewrite Hall. split; vm_compute; reflexivity.
Defined.

End AuditLogFacts.

(** ** The alert store: round trips, errors, compositions *)

Module AlertLifeFacts.
Import AlertStore AlertStoreFacts.

Lemma reachable_invariant window s :
  reachable window s -> index_sound s /\ keyed_by_id s.
Proof.
  induction 1; [apply invariant_init | by apply invariant_run].
Qed.

Lemma find_existing_truthy s fp existing :
  find_existing s fp = Some existing ->
  exists existing_id,
    _fingerprint_index s !! fp = Some existing_id
    /\ existing_id <> ""
    /\ _alerts s !! existing_id = Some existing.
Proof.
  unfold find_existing. destruct (_fingerprint_index s !! fp) as [i|]; [|done].
  destruct i; [done|]. intros H. eexists. by repeat split.
Qed.

(** The two ways [upsert_alert] succeeds. *)
Lemma upsert_alert_Ok s now alert s' r :
  upsert_alert s now alert = (s', Ok r) ->
  (exists existing n,
     find_existing s (fingerprint alert) = Some existing
     /\ r = merged existing alert now n
     /\ s' = set_alerts s (<[id existing := r]> (_alerts s)))
  \/ (s', r) = create s now alert.
Proof.
  unfold upsert_alert.
  destruct (find_existing s (fingerprint alert)) as [existing|] eqn:Hfind.
  - destruct (PyTime.fromisoformat (updated_at existing)); [|done].
    destruct (_ <=? _).
    + destruct (py_int _) as [n|]; [|done].
      intros [= <- <-]. left. by exists existing, n.
    + destruct (create s now alert). intros [= <- <-]. by right.
  - destruct (create s now alert). intros [= <- <-]. by right.
Qed.

Lemma format_id_nonempty n : AlertStore.format_id n <> "".
Proof. unfold AlertStore.format_id. discriminate. Qed.

(** X5. What [upsert_alert] returns is what the store holds: in a store
    reached through its operations, after a successful upsert the returned
    record is found by [get_alert] under its id, the id is not empty, and
    the fingerprint index maps the alert's fingerprint to that id. *)
Theorem upsert_then_get (window : Z) (s s' : t) (now : Z) (alert r : Alert) :
  reachable window s ->
  upsert_alert s now alert = (s', Ok r) ->
  get_alert s' (id r) = Some r
  /\ id r <> ""
  /\ _fingerprint_index s' !! fingerprint alert = Some (id r).
Proof.
  intros [_ Hkeyed]%reachable_invariant Hup.
  apply upsert_alert_Ok in Hup as [(existing & n & Hfind & -> & ->)|Hcreate].
  - apply find_existing_truthy in Hfind as (existing_id & Hfp & Hne & Ha).
    pose proof (Hkeyed _ _ Ha) as Hid.
    unfold get_alert. cbn [id merged _alerts set_alerts _fingerprint_index].
    rewrite lookup_insert_eq. repeat split; congruence.
  - pose proof (create_alerts s now alert) as Hal.
    pose proof (create_index s now alert) as Hix.
    pose proof (create_id s now alert) as Hid.
    rewrite <- Hcreate in Hal, Hix, Hid. cbn [fst snd] in *.
    unfold get_alert. rewrite Hal, Hix, !lookup_insert_eq.
    repeat split. rewrite Hid.
    destruct (id alert) eqn:Ha; [apply format_id_nonempty | done].
Qed.

(** The alert of the dedupe test, read back after its second upsert. *)
Lemma upsert_then_get_witness :
  exists s' r,
    upsert_alert after_first (noon + PyTime.minutes 5) cpu_alert = (s', Ok r)
    /\ get_alert s' (id r) = Some r.
Proof.
  destruct (upsert_alert after_first (noon + PyTime.minutes 5) cpu_alert)
    as [s' [r|e]] eqn:Hup; [|vm_compute in Hup; discriminate Hup].
  exists s', r. split; [done|].
  eapply (upsert_then_get 10 after_first); [|exact Hup].
  unfold after_first. apply (reach_step 10 _ (Upsert noon cpu_alert)).
  apply reach_init.
Defined.



(** X7. Dedupe: an alert without id whose fingerprint the store has not
    seen is stored under the next sequential id with one occurrence; when
    it comes back within the window after its [updated_at], the second
    upsert returns the same id with two occurrences, a refreshed
    [updated_at] and the original [created_at], and adds no record and
    draws no new id. *)
Theorem upsert_twice_dedupes (s : t) (now1 now2 : Z) (alert : Alert)
    (stamped : Z) :
  find_existing s (fingerprint alert) = None ->
  id alert = "" ->
  PyTime.fromisoformat (str_or (updated_at alert) (PyTime.isoformat now1))
  = Some stamped ->
  meta_or_empty (meta alert) !! "occurrences" = None ->
  now2 - stamped <= _dedupe_window s ->
  exists s1 r1 s2 r2 m1 m2,
    upsert_alert s now1 alert = (s1, Ok r1)
    /\ upsert_alert s1 now2 alert = (s2, Ok r2)
    /\ id r1 = AlertStore.format_id (S (_sequence s))
    /\ id r2 = id r1
    /\ meta r1 = Some m1 /\ m1 !! "occurrences" = Some (PInt 1)
    /\ meta r2 = Some m2 /\ m2 !! "occurrences" = Some (PInt 2)
    /\ updated_at r2 = PyTime.isoformat now2
    /\ created_at r2 = created_at r1
    /\ dom (_alerts s2) = dom (_alerts s1)
    /\ _sequence s2 = _sequence s1.
Proof.
  intros Hnew Hid Hparse Hocc Hwin.
  pose proof (create_alerts s now1 alert) as Hal.
  pose proof (create_index s now1 alert) as Hix.
  pose proof (create_id s now1 alert) as Hrid.
  pose proof (create_window s now1 alert) as Hw.
  assert (Hr1 : updated_at (create s now1 alert).2
                = str_or (updated_at alert) (PyTime.isoformat now1)
                /\ meta (create s now1 alert).2
                   = Some (meta_or_empty (meta alert) ∪ {["occurrences" := PInt 1]})).
  { unfold create. by destruct (str_truthy (id alert)). }
  destruct Hr1 as [Hup Hmeta].
  assert (Hfirst : upsert_alert s now1 alert
                   = ((create s now1 alert).1, Ok (create s now1 alert).2)).
  { unfold upsert_alert. rewrite Hnew. by destruct (create s now1 alert). }
  destruct (create s now1 alert) as [s1 r1]. cbn [fst snd] in *.
  rewrite Hid in Hrid. cbn [str_truthy] in Hrid.
  assert (Hm1 : (meta_or_empty (meta alert) ∪ {["occurrences" := PInt 1]})
                !! "occurrences" = Some (PInt 1)).
  { rewrite lookup_union, Hocc, lookup_singleton_eq. reflexivity. }
  assert (Hfind : find_existing s1 (fingerprint alert) = Some r1).
  { apply (find_existing_Some _ _ (id r1)).
    - rewrite Hix. apply lookup_insert_eq.
    - rewrite Hrid. apply format_id_nonempty.
    - rewrite Hal. apply lookup_insert_eq. }
  destruct (merged_meta r1 alert now2 1) as (m2 & Hm2 & Ho2 & _).
  exists s1, r1,
    (set_alerts s1 (<[id r1 := merged r1 alert now2 1]> (_alerts s1))),
    (merged r1 alert now2 1),
    (meta_or_empty (meta alert) ∪ {["occurrences" := PInt 1]}), m2.
  split; [exact Hfirst|]. split.
  { unfold upsert_alert. rewrite Hfind, Hup, Hparse, Hw.
    destruct (Z.leb_spec (now2 - stamped) (_dedupe_window s)); [|lia].
    assert (Hmo : meta_or_empty (meta r1) !! "occurrences" = Some (PInt 1))
      by (rewrite Hmeta; exact Hm1).
    by rewrite Hmo. }
  repeat split; try done.
  cbn [set_alerts _alerts]. apply dom_insert_lookup_L.
  rewrite Hal, lookup_insert_eq. eauto.
Qed.

(** The dedupe test, from the empty store. *)
Lemma upsert_twice_dedupes_witness :
  exists s1 r1 s2 r2,
    upsert_alert ALERT_STORE noon cpu_alert = (s1, Ok r1)
    /\ upsert_alert s1 (noon + PyTime.minutes 5) cpu_alert = (s2, Ok r2)
    /\ id r2 = id r1
    /\ size (_alerts s2) = 1%nat.
Proof.
  assert (Hnew : find_existing ALERT_STORE (fingerprint cpu_alert) = None)
    by (vm_compute; reflexivity).
  assert (Hid : id cpu_alert = "") by reflexivity.
  assert (Hparse : PyTime.fromisoformat
                     (str_or (updated_at cpu_alert) (PyTime.isoformat noon))
                   = Some noon) by (vm_compute; reflexivity).
  assert (Hocc : meta_or_empty (meta cpu_alert) !! "occurrences" = None)
    by (vm_compute; reflexivity).
  assert (Hwin : noon + PyTime.minutes 5 - noon <= _dedupe_window ALERT_STORE)
    by (vm_compute; discriminate).
  destruct (upsert_twice_dedupes ALERT_STORE noon (noon + PyTime.minutes 5)
              cpu_alert noon Hnew Hid Hparse Hocc Hwin)
    as (s1 & r1 & s2 & r2 & m1 & m2 & H1 & H2 & _ & Hid2 & _ & _ & _ & _ & _
        & _ & Hdom & _).
  exists s1, r1, s2, r2.
  split; [exact H1|]. split; [exact H2|]. split; [exact Hid2|].
  apply (f_equal size) in Hdom. rewrite !size_dom in Hdom. rewrite Hdom.
  assert (Hs1 : s1 = after_first).
  { unfold after_first. by rewrite H1. }
  rewrite Hs1. vm_compute. reflexivity.
Defined.

(** X8. [clear_all] returns the number of records it removes and empties
    both maps, but keeps the id counter: the first alert stored afterwards
    gets the number after the last one issued, an id that differs from
    every id the store has assigned before, and is the only record. *)
Theorem clear_all_keeps_counter (s : t) (now : Z) (alert : Alert) :
  id alert = "" ->
  (clear_all s).2 = size (_alerts s)
  /\ _alerts (clear_all s).1 = ∅
  /\ _fingerprint_index (clear_all s).1 = ∅
  /\ exists s1 r,
       upsert_alert (clear_all s).1 now alert = (s1, Ok r)
       /\ id r = AlertStore.format_id (S (_sequence s))
       /\ _alerts s1 = {[id r := r]}
       /\ forall n, (n <= _sequence s)%nat -> id r <> AlertStore.format_id n.
Proof.
  intros Hid. repeat split.
  set (s0 := (clear_all s).1).
  assert (Hfind : find_existing s0 (fingerprint alert) = None).
  { unfold find_existing, s0. simpl. by rewrite lookup_empty. }
  pose proof (create_alerts s0 now alert) as Hal.
  pose proof (create_id s0 now alert) as Hrid.
  rewrite Hid in Hrid. cbn [str_truthy] in Hrid.
  exists (create s0 now alert).1, (create s0 now alert).2.
  split.
  { unfold upsert_alert. rewrite Hfind. by destruct (create s0 now alert). }
  split; [exact Hrid|]. split.
  { rewrite Hal. unfold s0. simpl. apply insert_empty. }
  intros n Hn Heq. rewrite Hrid in Heq. apply alert_id_inj in Heq.
  unfold s0 in Heq. simpl in Heq. lia.
Qed.

(** After the dedupe test's store is cleared, the next alert is number 2. *)
Lemma clear_all_keeps_counter_witness :
  exists s1 r,
    upsert_alert (clear_all after_first).1 noon cpu_alert = (s1, Ok r)
    /\ id r = "alert-000002".
Proof.
  destruct (clear_all_keeps_counter after_first noon cpu_alert)
    as (_ & _ & _ & s1 & r & Hup & Hid & _); [reflexivity|].
  exists s1, r. split; [exact Hup|]. rewrite Hid. vm_compute. reflexivity.
Defined.

(** X9. A resolved alert is not reopened.  An alert acknowledged and then
    resolved carries both actors in [meta]; when its fingerprint fires
    again within the dedupe window after the resolution, [upsert_alert]
    merges into the same record, which keeps the status "resolved" and
    both actors, and counts one more occurrence. *)
Theorem resolved_stays_resolved (s : t) (alert_id ack_actor res_actor : string)
    (t1 t2 now occurrences : Z) (stored alert : Alert) :
  alert_id <> "" ->
  _alerts s !! alert_id = Some stored ->
  id stored = alert_id ->
  _fingerprint_index s !! fingerprint alert = Some alert_id ->
  py_int (default (PInt 1) (meta_or_empty (meta stored) !! "occurrences"))
  = Ok occurrences ->
  PyTime.fromisoformat (PyTime.isoformat t2) = Some t2 ->
  now - t2 <= _dedupe_window s ->
  exists s1 a1 s2 a2 s3 r m,
    acknowledge s t1 alert_id ack_actor = (s1, Ok a1)
    /\ resolve s1 t2 alert_id res_actor = (s2, Ok a2)
    /\ upsert_alert s2 now alert = (s3, Ok r)
    /\ status a1 = "acknowledged" /\ status a2 = "resolved"
    /\ status r = "resolved"
    /\ id r = alert_id
    /\ meta r = Some m
    /\ m !! "ack_by" = Some (PStr ack_actor)
    /\ m !! "resolved_by" = Some (PStr res_actor)
    /\ m !! "occurrences" = Some (PInt (occurrences + 1))
    /\ dom (_alerts s3) = dom (_alerts s).
Proof.
  intros Hne Hstored Hid Hfp Hocc Hparse Hwin.
  set (a1 := transition stored "acknowledged" "ack_by" ack_actor t1).
  set (s1 := set_alerts s (<[alert_id := a1]> (_alerts s))).
  set (a2 := transition a1 "resolved" "resolved_by" res_actor t2).
  set (s2 := set_alerts s1 (<[alert_id := a2]> (_alerts s1))).
  set (r := merged a2 alert now occurrences).
  assert (Hack : acknowledge s t1 alert_id ack_actor = (s1, Ok a1)).
  { unfold acknowledge. by rewrite Hstored. }
  assert (Hres : resolve s1 t2 alert_id res_actor = (s2, Ok a2)).
  { unfold resolve, s1. simpl. by rewrite lookup_insert_eq. }
  assert (Hfind : find_existing s2 (fingerprint alert) = Some a2).
  { apply (find_existing_Some _ _ alert_id); [done..|].
    unfold s2. simpl. apply lookup_insert_eq. }
  assert (Hocc2 : meta_or_empty (meta a2) !! "occurrences"
                  = meta_or_empty (meta stored) !! "occurrences").
  { unfold a2, a1. simpl. by rewrite !lookup_insert_ne. }
  exists s1, a1, s2, a2,
    (set_alerts s2 (<[id a2 := r]> (_alerts s2))), r,
    (<["last_message" := PStr (message alert)]>
       (<["occurrences" := PInt (occurrences + 1)]> (meta_or_empty (meta a2)))).
  split; [exact Hack|]. split; [exact Hres|]. split.
  { unfold upsert_alert. rewrite Hfind.
    change (updated_at a2) with (PyTime.isoformat t2). rewrite Hparse.
    change (_dedupe_window s2) with (_dedupe_window s).
    destruct (Z.leb_spec (now - t2) (_dedupe_window s)); [|lia].
    by rewrite Hocc2, Hocc. }
  repeat split; try done.
  - unfold a2, a1. simpl. rewrite !lookup_insert_ne by done.
    apply lookup_insert_eq.
  - unfold a2, a1. simpl. rewrite !lookup_insert_ne by done.
    apply lookup_insert_eq.
  - rewrite lookup_insert_ne by done. apply lookup_insert_eq.
  - unfold s2, s1, a2, a1. simpl. rewrite Hid.
    rewrite !dom_insert_lookup_L; [done|eauto|..].
    + rewrite lookup_insert_eq. eauto.
    + rewrite !lookup_insert_eq. eauto.
Qed.

(** The dedupe test's alert, acknowledged, resolved, and firing again
    three minutes after the resolution. *)
Lemma resolved_stays_resolved_witness :
  exists s3 r,
    upsert_alert AlertLife.resolved_store (noon + PyTime.minutes 5) cpu_alert
    = (s3, Ok r)
    /\ status r = "resolved".
Proof.
  assert (Hex : exists stored,
             _alerts after_first !! "alert-000001" = Some stored
             /\ id stored = "alert-000001"
             /\ meta_or_empty (meta stored) !! "occurrences" = Some (PInt 1)).
  { eexists. repeat split; vm_compute; reflexivity. }
  destruct Hex as (stored & Hst & Hid & Hocc).
  assert (Hne : "alert-000001" <> "") by discriminate.
  assert (Hfp : _fingerprint_index after_first !! fingerprint cpu_alert
                = Some "alert-000001") by (vm_compute; reflexivity).
  assert (Hint : py_int (default (PInt 1)
                           (meta_or_empty (meta stored) !! "occurrences"))
                 = Ok 1) by (rewrite Hocc; reflexivity).
  assert (Hparse : PyTime.fromisoformat
                     (PyTime.isoformat (noon + PyTime.minutes 2))
                   = Some (noon + PyTime.minutes 2)) by (vm_compute; reflexivity).
  assert (Hwin : noon + PyTime.minutes 5 - (noon + PyTime.minutes 2)
                 <= _dedupe_window after_first) by (vm_compute; discriminate).
  destruct (resolved_stays_resolved after_first "alert-000001"
              "ops@example.com" "admin@example.com"
              (noon + PyTime.minutes 1) (noon + PyTime.minutes 2)
              (noon + PyTime.minutes 5) 1 stored cpu_alert
              Hne Hst Hid Hfp Hint Hparse Hwin)
    as (s1 & a1 & s2 & a2 & s3 & r & m & Hack & Hres & Hup & _ & _ & Hstatus & _).
  exists s3, r. split; [|exact Hstatus].
  unfold AlertLife.resolved_store, AlertLife.acknowledged_store.
  rewrite Hack. cbn [fst]. rewrite Hres. exact Hup.
Defined.

End AlertLifeFacts.
